(** * Agentic Vision chat client: stream accumulation and part classification

    A shallow embedding of the TypeScript sources

      - [src/components/ChatMessageItem.tsx]: [renderPart] of
        [ChatMessageItem] and, in the same file, [handleSend] of the
        [ChatInterface] component
      - [src/services/gemini.ts]: [sendMessageStream]
      - [src/types.ts]: [ChatMessage]

    together with the properties of the specification that can be
    settled on it. *)

From Stdlib Require Import List Arith NArith Bool String Ascii Lia DecimalString
  DecimalN.
Import ListNotations.

Set Implicit Arguments.

(* ================================================================== *)
(** * JavaScript strings *)
(* ================================================================== *)

(** A JavaScript string is a finite sequence of UTF-16 code units. *)
Definition jsstring := list N.

(** String literals of the source, all of them plain ASCII. *)
Definition lit (s : string) : jsstring :=
  map N_of_ascii (list_ascii_of_string s).

Definition jsstring_eq_dec : forall a b : jsstring, {a = b} + {a <> b} :=
  list_eq_dec N.eq_dec.

(** [a === b] on two strings. *)
Definition strictEq (a b : jsstring) : bool :=
  if jsstring_eq_dec a b then true else false.

(** The code points that [String.prototype.trim] strips: the WhiteSpace
    and LineTerminator productions of ECMAScript. *)
Definition whiteSpaceUnits : list N :=
  [ 9; 10; 11; 12; 13; 32; 160; 5760;
    8192; 8193; 8194; 8195; 8196; 8197; 8198; 8199; 8200; 8201; 8202;
    8232; 8233; 8239; 8287; 12288; 65279 ]%N.

Definition isWhiteSpace (c : N) : bool := existsb (N.eqb c) whiteSpaceUnits.

Fixpoint trimStart (s : jsstring) : jsstring :=
  match s with
  | [] => []
  | c :: s' => if isWhiteSpace c then trimStart s' else s
  end.

Definition trimEnd (s : jsstring) : jsstring := rev (trimStart (rev s)).

(** [s.trim()] *)
Definition trim (s : jsstring) : jsstring := trimEnd (trimStart s).

(** The line terminators that the regular-expression atom [.] refuses. *)
Definition isLineTerminator (c : N) : bool :=
  existsb (N.eqb c) [10; 13; 8232; 8233]%N.

(** [`${n}`] for a non-negative integer [n]: its decimal digits. *)
Definition numberToString (n : N) : jsstring :=
  lit (NilZero.string_of_uint (N.to_uint n)).

(* ================================================================== *)
(** * The [Part] of the SDK, as the application reads it *)
(* ================================================================== *)

(** [part.thought] is declared a boolean by the SDK; [renderPart] also
    accepts a string, so both shapes are kept. *)
Inductive ThoughtValue :=
| ThoughtBool (b : bool)
| ThoughtString (s : jsstring).

Record ExecutableCode := { language : jsstring; code : jsstring }.
Record CodeExecutionResult := { outcome : jsstring; output : jsstring }.
Record Blob := { mimeType : jsstring; data : jsstring }.

(** An absent, [undefined] or [null] field is [None]: the application
    only ever tests these fields for truthiness, for [=== true] and for
    [typeof ... === 'string'], and none of the three tells them apart. *)
Record Part := {
  text : option jsstring;
  thought : option ThoughtValue;
  executableCode : option ExecutableCode;
  codeExecutionResult : option CodeExecutionResult;
  inlineData : option Blob
}.

Definition emptyPart : Part :=
  {| text := None; thought := None; executableCode := None;
     codeExecutionResult := None; inlineData := None |}.

(** Object literals with a single field. *)
Definition textPart (s : jsstring) : Part :=
  {| text := Some s; thought := None; executableCode := None;
     codeExecutionResult := None; inlineData := None |}.
Definition thoughtPart (v : ThoughtValue) : Part :=
  {| text := None; thought := Some v; executableCode := None;
     codeExecutionResult := None; inlineData := None |}.
Definition executableCodePart (e : ExecutableCode) : Part :=
  {| text := None; thought := None; executableCode := Some e;
     codeExecutionResult := None; inlineData := None |}.
Definition codeExecutionResultPart (r : CodeExecutionResult) : Part :=
  {| text := None; thought := None; executableCode := None;
     codeExecutionResult := Some r; inlineData := None |}.
Definition inlineDataPart (b : Blob) : Part :=
  {| text := None; thought := None; executableCode := None;
     codeExecutionResult := None; inlineData := Some b |}.

(** [lastPart.text = v] *)
Definition setText (p : Part) (v : jsstring) : Part :=
  {| text := Some v; thought := thought p;
     executableCode := executableCode p;
     codeExecutionResult := codeExecutionResult p;
     inlineData := inlineData p |}.

(** ** Truthiness *)

(** A string is truthy when it is present and not empty. *)
Definition truthyString (o : option jsstring) : bool :=
  match o with
  | Some (_ :: _) => true
  | _ => false
  end.

(** [part.thought] is truthy when it is [true] or a non-empty string. *)
Definition truthyThought (o : option ThoughtValue) : bool :=
  match o with
  | Some (ThoughtBool b) => b
  | Some (ThoughtString (_ :: _)) => true
  | _ => false
  end.

(** An object is truthy when it is present. *)
Definition truthyObject {A : Type} (o : option A) : bool :=
  match o with
  | Some _ => true
  | None => false
  end.

(** [s || ""] *)
Definition orEmpty (o : option jsstring) : jsstring :=
  match o with
  | Some (c :: s) => c :: s
  | _ => []
  end.

(* ================================================================== *)
(** * [renderPart] (ChatMessageItem.tsx) *)
(* ================================================================== *)

(** What [renderPart] draws, without the styling.  The title of a
    thought panel is cosmetic and is left out; everything else that
    reaches the screen is kept. *)
Inductive Rendered :=
| RThought (thoughtContent : jsstring)
| RExecutableCode (lang : jsstring) (body : jsstring)
| RCodeExecutionResult (status : jsstring) (out : jsstring)
| RText (markdown : jsstring)
| RInlineImage (src : jsstring).

(** [part.thought === true || typeof part.thought === 'string'] *)
Definition isThought (part : Part) : bool :=
  match thought part with
  | Some (ThoughtBool true) => true
  | Some (ThoughtString _) => true
  | _ => false
  end.

(** [(typeof part.thought === 'string' ? part.thought : (part.text || "")).trim()] *)
Definition thoughtContent (part : Part) : jsstring :=
  trim match thought part with
       | Some (ThoughtString s) => s
       | _ => orEmpty (text part)
       end.

(** [renderPart]; [None] is the [return null] at its end. *)
Definition renderPart (part : Part) : option Rendered :=
  if isThought part then Some (RThought (thoughtContent part))
  else match executableCode part with
  | Some ec => Some (RExecutableCode (language ec) (code ec))
  | None =>
  match codeExecutionResult part with
  | Some r => Some (RCodeExecutionResult (outcome r) (output r))
  | None =>
  match text part with
  | Some (c :: s) => Some (RText (c :: s))
  | _ =>
  match inlineData part with
  | Some b =>
      Some (RInlineImage
              (lit "data:" ++ mimeType b ++ lit ";base64," ++ data b))
  | None => None
  end end end end.

(** The kind of a part is the branch of [renderPart] that draws it. *)
Inductive Kind :=
| Thought | ExecutableCodeKind | CodeExecutionResultKind | Text
| InlineImage | Unknown.

Definition classify (part : Part) : Kind :=
  match renderPart part with
  | Some (RThought _) => Thought
  | Some (RExecutableCode _ _) => ExecutableCodeKind
  | Some (RCodeExecutionResult _ _) => CodeExecutionResultKind
  | Some (RText _) => Text
  | Some (RInlineImage _) => InlineImage
  | None => Unknown
  end.

(* ================================================================== *)
(** * The accumulation loop of [handleSend] (ChatInterface.tsx) *)
(* ================================================================== *)

(** [l[l.length - 1]] *)
Fixpoint lastOf {A : Type} (l : list A) : option A :=
  match l with
  | [] => None
  | [x] => Some x
  | _ :: l' => lastOf l'
  end.

(** The parenthesised disjunction of [isSameType], for a last part that
    exists. *)
Definition sameType (incoming lastPart : Part) : bool :=
  (truthyString (text incoming) && truthyString (text lastPart)
   && negb (truthyThought (thought incoming))
   && negb (truthyThought (thought lastPart))
   && negb (truthyObject (executableCode incoming))
   && negb (truthyObject (executableCode lastPart)))
  || (truthyThought (thought incoming) && truthyThought (thought lastPart)).

(** [const isSameType = lastPart && ( ... )] *)
Definition isSameType (lastPart : option Part) (incoming : Part) : bool :=
  match lastPart with
  | None => false
  | Some l => sameType incoming l
  end.

(** One turn of [for (const incoming of incomingParts)].  The source
    updates [lastPart.text] in place; [lastPart] is the object stored at
    the end of [accumulatedParts], a shallow copy that nothing else
    holds, so the update is the replacement of the last element. *)
Definition mergePart (accumulatedParts : list Part) (incoming : Part)
  : list Part :=
  match lastOf accumulatedParts with
  | Some lastPart =>
      if isSameType (Some lastPart) incoming then
        match text incoming with
        | Some (c :: s) =>
            removelast accumulatedParts
              ++ [setText lastPart (orEmpty (text lastPart) ++ c :: s)]
        | _ => accumulatedParts
        end
      else accumulatedParts ++ [incoming]
  | None => accumulatedParts ++ [incoming]
  end.

(** The whole inner loop over the parts of one chunk. *)
Definition accumulate (accumulatedParts incomingParts : list Part)
  : list Part :=
  fold_left mergePart incomingParts accumulatedParts.

(* ================================================================== *)
(** * The data-URL pattern [/^data:(.+);base64,(.+)$/] *)
(* ================================================================== *)

(** [s] without the literal [p] in front of it. *)
Fixpoint stripPrefix (p s : jsstring) : option jsstring :=
  match p, s with
  | [], _ => Some s
  | a :: p', b :: s' => if N.eqb a b then stripPrefix p' s' else None
  | _ :: _, [] => None
  end.

Definition noLineTerminator (s : jsstring) : bool :=
  forallb (fun c => negb (isLineTerminator c)) s.

(** [(.+);base64,(.+)$] matched at the start of [s], with the two
    captures.  Both groups are greedy and [.] refuses line terminators:
    the backtracking matcher first tries the longest first group, which
    is the recursive call, and only then the one that stops here. *)
Fixpoint matchGroups (s : jsstring) : option (jsstring * jsstring) :=
  match s with
  | [] => None
  | c :: s' =>
      if isLineTerminator c then None
      else match matchGroups s' with
           | Some (m, d) => Some (c :: m, d)
           | None =>
               match stripPrefix (lit ";base64,") s' with
               | Some (d0 :: d) =>
                   if noLineTerminator (d0 :: d) then Some ([c], d0 :: d)
                   else None
               | _ => None
               end
           end
  end.

(** [image.match(/^data:(.+);base64,(.+)$/)]: [None] is [null], and
    [Some (m, d)] carries [match[1]] and [match[2]]. *)
Definition dataUrlMatch (image : jsstring) : option (jsstring * jsstring) :=
  match stripPrefix (lit "data:") image with
  | Some rest => matchGroups rest
  | None => None
  end.

(** [m === 'application/octet-stream' ? 'image/jpeg' : m] *)
Definition normalizeMimeType (m : jsstring) : jsstring :=
  if strictEq m (lit "application/octet-stream") then lit "image/jpeg"
  else m.

(** The [inlineData] part built from an attached image, by
    [sendMessageStream] and by [handleSend] alike; [None] when the
    image is missing, empty or not a data URL. *)
Definition imagePartOf (image : option jsstring) : option Part :=
  match image with
  | Some (c :: s) =>
      match dataUrlMatch (c :: s) with
      | Some (m, d) =>
          Some (inlineDataPart
                  {| mimeType := normalizeMimeType m; data := d |})
      | None => None
      end
  | _ => None
  end.

(* ================================================================== *)
(** * Messages, transport and the state of the component *)
(* ================================================================== *)

Inductive Role := user | model.

(** The transport types of the SDK that the application reads. *)
Module GenAI.
Record Content := { parts : option (list Part); role : option Role }.
Record Candidate := { content : option Content }.
Record GenerateContentResponse :=
  { candidates : option (list Candidate) }.
End GenAI.

(** [ChatMessage] (types.ts) *)
Record ChatMessage := {
  id : jsstring;
  role : Role;
  parts : list Part;
  timestamp : N
}.

(** What one call of [chat.sendMessageStream] carries out of the
    application: the history the chat was created with and the parts
    of the new message. *)
Record Request := {
  history : list GenAI.Content;
  message : list Part
}.

(** How the stream of one turn ends. *)
Inductive StreamEnd := Completes | Raises.

(** What the transport does with one request: the call itself is
    rejected, or it yields chunks and then completes or raises. *)
Inductive Transport :=
| Rejects
| Yields (chunks : list GenAI.GenerateContentResponse) (fin : StreamEnd).

(** The React state of [ChatInterface], the number of readings of the
    wall clock so far, and the requests handed to the transport. *)
Record World := {
  messages : list ChatMessage;
  isLoading : bool;
  ticks : nat;
  sent : list Request
}.

(** [chunk.candidates?.[0]?.content?.parts] *)
Definition incomingPartsOf (chunk : GenAI.GenerateContentResponse)
  : option (list Part) :=
  match GenAI.candidates chunk with
  | None => None
  | Some cs =>
      match nth_error cs 0 with
      | None => None
      | Some c =>
          match GenAI.content c with
          | None => None
          | Some ct => GenAI.parts ct
          end
      end
  end.

(** [last?.id === modelMessageId] *)
Definition lastHasId (last : option ChatMessage) (modelMessageId : jsstring)
  : bool :=
  match last with
  | Some l => strictEq (id l) modelMessageId
  | None => false
  end.

(** The updater handed to [setMessages] after each chunk; [timeNow] is
    what [Date.now()] returns if it is evaluated.  The parts are stored
    through [JSON.parse(JSON.stringify(...))], which gives back an equal
    value of this data. *)
Definition applyTurn (timeNow : N) (prev : list ChatMessage)
  (modelMessageId : jsstring) (accumulatedParts : list Part)
  : list ChatMessage :=
  let last := lastOf prev in
  let updatedModelMessage :=
    {| id := modelMessageId;
       role := model;
       parts := accumulatedParts;
       timestamp :=
         match last with
         | Some l =>
             if strictEq (id l) modelMessageId then timestamp l else timeNow
         | None => timeNow
         end |} in
  if lastHasId last modelMessageId
  then removelast prev ++ [updatedModelMessage]
  else prev ++ [updatedModelMessage].

(** The message of the [catch] block. *)
Definition errorMessage (idNow timestampNow : N) : ChatMessage :=
  {| id := lit "error-" ++ numberToString idNow;
     role := model;
     parts := [textPart (lit "I encountered an error. Please try again.")];
     timestamp := timestampNow |}.

(* ================================================================== *)
(** * A state monad for the handler *)
(* ================================================================== *)

Definition M (A : Type) : Type := World -> A * World.

Definition ret {A : Type} (a : A) : M A := fun w => (a, w).

Definition bind {A B : Type} (m : M A) (k : A -> M B) : M B :=
  fun w => let (a, w') := m w in k a w'.

Declare Scope handler_scope.
Delimit Scope handler_scope with handler.
Notation "x <- m ;; k" := (bind m (fun x => k))
  (at level 61, m at next level, right associativity) : handler_scope.
Notation "m ;; k" := (bind m (fun _ => k))
  (at level 61, right associativity) : handler_scope.
Local Open Scope handler_scope.

Definition exec {A : Type} (m : M A) (w : World) : World := snd (m w).

Definition getMessages : M (list ChatMessage) := fun w => (messages w, w).

Definition getIsLoading : M bool := fun w => (isLoading w, w).

(** [setMessages(updater)] *)
Definition setMessages (updater : list ChatMessage -> list ChatMessage)
  : M unit :=
  fun w => (tt, {| messages := updater (messages w);
                   isLoading := isLoading w;
                   ticks := ticks w;
                   sent := sent w |}).

(** [setIsLoading(b)] *)
Definition setIsLoading (b : bool) : M unit :=
  fun w => (tt, {| messages := messages w;
                   isLoading := b;
                   ticks := ticks w;
                   sent := sent w |}).

(** [chat.sendMessageStream({ message })] on a chat created with
    [history]: the request leaves the application. *)
Definition transportSend (r : Request) : M unit :=
  fun w => (tt, {| messages := messages w;
                   isLoading := isLoading w;
                   ticks := ticks w;
                   sent := sent w ++ [r] |}).

Section Handler.

(** The wall clock: [now k] is what the [k]-th evaluation of
    [Date.now()] returns. *)
Variable now : nat -> N.

(** [Date.now()] *)
Definition dateNow : M N :=
  fun w => (now (ticks w),
            {| messages := messages w;
               isLoading := isLoading w;
               ticks := S (ticks w);
               sent := sent w |}).

(** [sendMessageStream] (gemini.ts): the parts of the outgoing
    message are the text and, for a data URL, the image; [reply] is
    what the transport answers. *)
Definition sendMessageStream (reply : Transport) (message : jsstring)
  (history : list GenAI.Content) (image : option jsstring)
  : M Transport :=
  let parts :=
    [textPart message]
      ++ match imagePartOf image with
         | Some p => [p]
         | None => []
         end in
  transportSend {| history := history; message := parts |} ;;
  ret reply.

(** [setMessages((prev) => ...)] after a chunk.  The updater is taken
    to run as soon as it is queued, on the state left by the updaters
    before it.  [Date.now()] is evaluated only on the branch of the
    conditional that needs it; on the other branch [applyTurn] does not
    read its first argument. *)
Definition publish (modelMessageId : jsstring)
  (accumulatedParts : list Part) : M unit :=
  prev <- getMessages ;;
  t <- (if lastHasId (lastOf prev) modelMessageId
        then ret 0%N else dateNow) ;;
  setMessages (fun prev => applyTurn t prev modelMessageId accumulatedParts).

(** The body of [for await (const chunk of stream)] for one chunk;
    the result is [accumulatedParts] after it. *)
Definition processChunk (modelMessageId : jsstring)
  (accumulatedParts : list Part) (chunk : GenAI.GenerateContentResponse)
  : M (list Part) :=
  match incomingPartsOf chunk with
  | Some incomingParts =>
      let accumulatedParts' := accumulate accumulatedParts incomingParts in
      publish modelMessageId accumulatedParts' ;;
      ret accumulatedParts'
  | None => ret accumulatedParts
  end.

(** The loop over the chunks that the stream yields. *)
Fixpoint forAwait (modelMessageId : jsstring)
  (chunks : list GenAI.GenerateContentResponse)
  (accumulatedParts : list Part) : M (list Part) :=
  match chunks with
  | [] => ret accumulatedParts
  | chunk :: rest =>
      accumulatedParts' <-
        processChunk modelMessageId accumulatedParts chunk ;;
      forAwait modelMessageId rest accumulatedParts'
  end.

(** The [try] block.  [closureMessages] is the [messages] that the
    handler closed over.  The result tells whether the block ran to
    its end or threw. *)
Definition tryBlock (reply : Transport)
  (closureMessages : list ChatMessage)
  (text : jsstring) (image : option jsstring) : M StreamEnd :=
  let history :=
    map (fun m => {| GenAI.parts := Some (parts m);
                     GenAI.role := Some (role m) |}) closureMessages in
  stream <- sendMessageStream reply text history image ;;
  match stream with
  | Rejects => ret Raises
  | Yields chunks fin =>
      t <- dateNow ;;
      forAwait (lit "model-" ++ numberToString t) chunks [] ;;
      ret fin
  end.

(** The [catch] block. *)
Definition catchBlock : M unit :=
  idNow <- dateNow ;;
  timestampNow <- dateNow ;;
  setMessages (fun prev => prev ++ [errorMessage idNow timestampNow]).

(** The user's message. *)
Definition newUserMessage (idNow timestampNow : N)
  (text : jsstring) (image : option jsstring) : ChatMessage :=
  let userPart := textPart text in
  {| id := lit "user-" ++ numberToString idNow;
     role := user;
     parts := match imagePartOf image with
              | Some imagePart => [imagePart; userPart]
              | None => [userPart]
              end;
     timestamp := timestampNow |}.

(** [handleSend], run from its first statement to its [finally]; no
    other event of the page is interleaved with it. *)
Definition handleSend (reply : Transport)
  (text : jsstring) (image : option jsstring) : M unit :=
  loading <- getIsLoading ;;
  if loading then ret tt
  else
    closureMessages <- getMessages ;;
    idNow <- dateNow ;;
    timestampNow <- dateNow ;;
    setMessages
      (fun prev => prev ++ [newUserMessage idNow timestampNow text image]) ;;
    setIsLoading true ;;
    outcome <- tryBlock reply closureMessages text image ;;
    match outcome with
    | Completes => ret tt
    | Raises => catchBlock
    end ;;
    setIsLoading false.

End Handler.

(* ================================================================== *)
(** * Notions used to state the properties *)
(* ================================================================== *)

Definition Kind_eqb (a b : Kind) : bool :=
  match a, b with
  | Thought, Thought
  | ExecutableCodeKind, ExecutableCodeKind
  | CodeExecutionResultKind, CodeExecutionResultKind
  | Text, Text
  | InlineImage, InlineImage
  | Unknown, Unknown => true
  | _, _ => false
  end.

(** The classification rules as the specification words them (its
    section 4.1), kept apart from [classify] so that the two can be
    compared: a thought counts when it is truthy, and a text counts as
    soon as it is present, even empty. *)
Definition specClassify (f : Part) : Kind :=
  if truthyThought (thought f) then Thought
  else if truthyObject (executableCode f) then ExecutableCodeKind
  else if truthyObject (codeExecutionResult f) then CodeExecutionResultKind
  else if truthyObject (text f) then Text
  else if truthyObject (inlineData f) then InlineImage
  else Unknown.

(** The recognised fields that a fragment carries, each named by the
    kind it stands for. *)
Definition populatedFields (f : Part) : list Kind :=
  (if truthyObject (text f) then [Text] else [])
  ++ (if truthyObject (thought f) then [Thought] else [])
  ++ (if truthyObject (executableCode f) then [ExecutableCodeKind] else [])
  ++ (if truthyObject (codeExecutionResult f)
      then [CodeExecutionResultKind] else [])
  ++ (if truthyObject (inlineData f) then [InlineImage] else []).

(** No two neighbours of [l] are related by [same]. *)
Fixpoint adjacentFree {A : Type} (same : A -> A -> bool) (l : list A)
  : bool :=
  match l with
  | a :: (b :: _) as l' => negb (same a b) && adjacentFree same l'
  | _ => true
  end.

(** Both parts are of kind Text, or both of kind Thought, for a given
    classifier. *)
Definition bothMergeable (kindOf : Part -> Kind) (a b : Part) : bool :=
  (Kind_eqb (kindOf a) Text && Kind_eqb (kindOf b) Text)
  || (Kind_eqb (kindOf a) Thought && Kind_eqb (kindOf b) Thought).

(** Both parts are drawn as text, or both carry a truthy thought. *)
Definition bothMerged (a b : Part) : bool :=
  (Kind_eqb (classify a) Text && Kind_eqb (classify b) Text)
  || (truthyThought (thought a) && truthyThought (thought b)).

(** A string is [data:<m>;base64,<d>] with both [m] and [d] non-empty
    and free of line terminators. *)
Definition isDataUrl (image m d : jsstring) : Prop :=
  image = lit "data:" ++ m ++ lit ";base64," ++ d
  /\ m <> [] /\ d <> []
  /\ noLineTerminator m = true /\ noLineTerminator d = true.

(** The accumulated parts after a run of chunks, without the store. *)
Definition accumulateChunks (accumulatedParts : list Part)
  (chunks : list GenAI.GenerateContentResponse) : list Part :=
  fold_left
    (fun acc chunk =>
       match incomingPartsOf chunk with
       | Some incomingParts => accumulate acc incomingParts
       | None => acc
       end)
    chunks accumulatedParts.

(** Some chunk of the run carries a [parts] array. *)
Definition anyParts (chunks : list GenAI.GenerateContentResponse) : bool :=
  existsb (fun chunk => truthyObject (incomingPartsOf chunk)) chunks.

(** A chunk that carries the given parts in its first candidate. *)
Definition chunkOf (ps : list Part) : GenAI.GenerateContentResponse :=
  {| GenAI.candidates :=
       Some [{| GenAI.content :=
                  Some {| GenAI.parts := Some ps;
                          GenAI.role := Some model |} |}] |}.

(** The fragments of the end-to-end scenario of the specification. *)
Definition scenario : list Part :=
  [ thoughtPart (ThoughtString (lit "**Plan**: crop"));
    thoughtPart (ThoughtString (lit " the image"));
    executableCodePart {| language := lit "python"; code := lit "crop(img)" |};
    codeExecutionResultPart {| outcome := lit "OK"; output := lit "done" |};
    textPart (lit "Here is the result.") ].

(** The same scenario with each thought delta carried by [text] under
    [thought: true], the shape that the SDK declares. *)
Definition scenarioFlagged : list Part :=
  [ {| text := Some (lit "**Plan**: crop"); thought := Some (ThoughtBool true);
       executableCode := None; codeExecutionResult := None;
       inlineData := None |};
    {| text := Some (lit " the image"); thought := Some (ThoughtBool true);
       executableCode := None; codeExecutionResult := None;
       inlineData := None |};
    executableCodePart {| language := lit "python"; code := lit "crop(img)" |};
    codeExecutionResultPart {| outcome := lit "OK"; output := lit "done" |};
    textPart (lit "Here is the result.") ].

(** The model message that a turn publishes. *)
Definition modelMessage (modelMessageId : jsstring)
  (accumulatedParts : list Part) (timestampNow : N) : ChatMessage :=
  {| id := modelMessageId; role := model; parts := accumulatedParts;
     timestamp := timestampNow |}.

(** The model message that the chunks of a turn leave in the
    conversation, for a handler that started at clock reading [t0]:
    none when no chunk carried parts. *)
Definition streamedMessages (now : nat -> N) (t0 : nat)
  (chunks : list GenAI.GenerateContentResponse) : list ChatMessage :=
  if anyParts chunks
  then [modelMessage (lit "model-" ++ numberToString (now (2 + t0)))
          (accumulateChunks [] chunks) (now (3 + t0))]
  else [].

(** The clock reading at which the [catch] block starts. *)
Definition catchTick (t0 : nat) (reply : Transport) : nat :=
  match reply with
  | Rejects => 2 + t0
  | Yields chunks _ => (if anyParts chunks then 4 else 3) + t0
  end.

(** The messages that a whole turn appends to the conversation. *)
Definition turnMessages (now : nat -> N) (t0 : nat) (reply : Transport)
  (text : jsstring) (image : option jsstring) : list ChatMessage :=
  [newUserMessage (now t0) (now (1 + t0)) text image]
  ++ match reply with
     | Rejects => []
     | Yields chunks _ => streamedMessages now t0 chunks
     end
  ++ match reply with
     | Yields _ Completes => []
     | _ => [errorMessage (now (catchTick t0 reply))
               (now (1 + catchTick t0 reply))]
     end.

(** The transport did not deliver the whole stream. *)
Definition fails (reply : Transport) : bool :=
  match reply with
  | Yields _ Completes => false
  | _ => true
  end.

Definition isModel (m : ChatMessage) : bool :=
  match role m with
  | model => true
  | user => false
  end.

(** The number of model messages of a conversation. *)
Definition countModel (l : list ChatMessage) : nat :=
  List.length (filter isModel l).

(** A small run: a clock that ticks by one, an idle component with one
    earlier exchange, and a stream that raises after one chunk. *)
Definition sampleClock : nat -> N := N.of_nat.

Definition sampleWorld : World :=
  {| messages :=
       [ {| id := lit "user-0"; role := user;
            parts := [textPart (lit "hello")]; timestamp := 0%N |};
         modelMessage (lit "model-1") [textPart (lit "Hi!")] 1%N ];
     isLoading := false;
     ticks := 10;
     sent := [] |}.

Definition sampleReply : Transport :=
  Yields [chunkOf [textPart (lit "Let me")]] Raises.

(* ================================================================== *)
(** * The rest of the components *)
(* ================================================================== *)

(** ** The title of a thought panel ([renderPart]) *)

(** The longest run of code units other than [*] at the start of [s],
    and what follows it: the greedy [[^*]+]. *)
Fixpoint spanNonStar (s : jsstring) : jsstring * jsstring :=
  match s with
  | [] => ([], [])
  | c :: s' =>
      if N.eqb c 42 then ([], s)
      else let (run, rest) := spanNonStar s' in (c :: run, rest)
  end.

(** [/\*\*([^*]+)\*\*/] matched at the start of [s]: the capture and
    the length of the match.  Once the greedy class has taken its
    longest run, a shorter one would leave a code unit that is not a
    star in front of [\*\*], so no backtracking can succeed. *)
Definition boldAt (s : jsstring) : option (jsstring * nat) :=
  match stripPrefix (lit "**") s with
  | Some afterOpen =>
      match spanNonStar afterOpen with
      | (c :: run, rest) =>
          match stripPrefix (lit "**") rest with
          | Some _ => Some (c :: run, 4 + List.length (c :: run))
          | None => None
          end
      | ([], _) => None
      end
  | None => None
  end.

(** The scan of a global pattern: at each position outside a match the
    pattern is tried, and after a match the scan goes on behind it.
    [skip] counts the code units of [s] that the last match covers. *)
Fixpoint boldScan (skip : nat) (s : jsstring) : list jsstring :=
  match s with
  | [] => []
  | _ :: s' =>
      match skip with
      | S k => boldScan k s'
      | O =>
          match boldAt s with
          | Some (capture, len) => capture :: boldScan (len - 1) s'
          | None => boldScan 0 s'
          end
      end
  end.

(** The first groups of [[...thoughtContent.matchAll(/\*\*([^*]+)\*\*/g)]] *)
Definition boldMatches (s : jsstring) : list jsstring := boldScan 0 s.

(** The [title] of the panel that [renderPart] draws for a thought;
    [index] is the position of the part and [nparts] is
    [message.parts.length]. *)
Definition thoughtTitle (isStreaming : bool) (index nparts : nat)
  (part : Part) : jsstring :=
  if isStreaming && Nat.eqb (S index) nparts then
    match lastOf (boldMatches (thoughtContent part)) with
    | Some lastTitle => lit "Thinking: " ++ lastTitle
    | None => lit "Analyzing..."
    end
  else lit "Thought Process".

(** ** [ChatInput] *)

(** The state of the form: the text of the textarea and the data URL of
    the picked file, [None] for [null]. *)
Record InputState := {
  input : jsstring;
  selectedImage : option jsstring
}.


(** [handleSubmit]: the arguments of the call of [onSend], if it is
    made, and the state of the form afterwards. *)
Definition handleSubmit (disabled : bool) (st : InputState)
  : option (jsstring * option jsstring) * InputState :=
  if (truthyString (Some (trim (input st)))
      || truthyString (selectedImage st))
     && negb disabled
  then (Some (trim (input st),
              match selectedImage st with
              | Some (c :: s) => Some (c :: s)
              | _ => None
              end),
        {| input := []; selectedImage := None |})
  else (None, st).

(** [handleKeyDown] *)
Definition handleKeyDown (key : jsstring) (shiftKey : bool)
  (disabled : bool) (st : InputState)
  : option (jsstring * option jsstring) * InputState :=
  if strictEq key (lit "Enter") && negb shiftKey
  then handleSubmit disabled st
  else (None, st).

(** ** [ExampleCard] and the examples *)

(** [ExamplePrompt] (types.ts) *)
Record ExamplePrompt := {
  title : jsstring;
  prompt : jsstring;
  image : jsstring
}.

(** The suffix behind the last [.] of [s], when there is one. *)
Fixpoint afterLastDot (s : jsstring) : option jsstring :=
  match s with
  | [] => None
  | c :: s' =>
      match afterLastDot s' with
      | Some r => Some r
      | None => if N.eqb c 46 then Some s' else None
      end
  end.

(** [s.split('.').pop()]: the last of the segments between dots, the
    whole string when it has no dot. *)
Definition lastSegment (s : jsstring) : jsstring :=
  match afterLastDot s with
  | Some r => r
  | None => s
  end.

Section Thumbnail.

(** [String.prototype.toLowerCase], a built-in that is not modelled. *)
Variable toLowerCase : jsstring -> jsstring.

(** The type of the blob that [fetchImage] hands to
    [URL.createObjectURL], from [blob.type] and the URL of the image. *)
Definition thumbnailMimeType (blobType url : jsstring) : jsstring :=
  if negb (truthyString (Some blobType))
     || strictEq blobType (lit "application/octet-stream")
  then
    let ext := toLowerCase (lastSegment url) in
    if strictEq ext (lit "jpg") || strictEq ext (lit "jpeg")
    then lit "image/jpeg"
    else if strictEq ext (lit "png") then lit "image/png"
    else if strictEq ext (lit "webp") then lit "image/webp"
    else lit "image/jpeg"
  else blobType.

End Thumbnail.

(** [DEFAULT_EXAMPLES] *)
Definition DEFAULT_EXAMPLES : list ExamplePrompt :=
  [ {| title := lit "Visual Thoughts";
       prompt := lit "Crop out all the animals, and use them as icons in a matplotlib plot showing the lifespan of those animals. Sort by lifespan.";
       image := lit "https://raw.githubusercontent.com/nannanxia-art/gemini-thinking/refs/heads/main/animals.jpg" |};
    {| title := lit "Visual Thoughts";
       prompt := lit "Analyze where the mug, glass, and bowl will go? Annotate them on the image with boxes and arrows and save the image.";
       image := lit "https://raw.githubusercontent.com/nannanxia-art/gemini-thinking/refs/heads/main/spatial2_min.jpeg" |};
    {| title := lit "Visual Thoughts";
       prompt := lit "How many gears are there? Zoom in to see.";
       image := lit "https://raw.githubusercontent.com/nannanxia-art/gemini-thinking/refs/heads/main/spatial3_orig_min.jpeg" |} ].

(** [handleExampleClick] *)
Definition handleExampleClick (now : nat -> N) (reply : Transport)
  (example : ExamplePrompt) : M unit :=
  handleSend now reply (prompt example) (Some (image example)).

(** [clearChat] *)
Definition clearChat : M unit := setMessages (fun _ => []).

(* ================================================================== *)
(** * Further notions *)
(* ================================================================== *)

(** The text that a list of parts holds, in order. *)
Definition allText (ps : list Part) : jsstring :=
  List.concat (map (fun p => orEmpty (text p)) ps).

(** The object literal [{ text: s, thought: true }]. *)
Definition flaggedThoughtPart (s : jsstring) : Part :=
  {| text := Some s; thought := Some (ThoughtBool true);
     executableCode := None; codeExecutionResult := None;
     inlineData := None |}.

(** The parts that the chunks of a stream carry, one after the other. *)
Definition flatParts (chunks : list GenAI.GenerateContentResponse)
  : list Part :=
  List.concat
    (map (fun chunk => match incomingPartsOf chunk with
                       | Some ps => ps
                       | None => []
                       end) chunks).

(** The entry of the history that stands for a message. *)
Definition toContent (m : ChatMessage) : GenAI.Content :=
  {| GenAI.parts := Some (parts m); GenAI.role := Some (role m) |}.

(** The request that a turn hands to the transport. *)
Definition requestOf (conversation : list ChatMessage)
  (text : jsstring) (image : option jsstring) : Request :=
  {| history := map toContent conversation;
     message := textPart text
                :: match imagePartOf image with
                   | Some p => [p]
                   | None => []
                   end |}.

(** The number of readings of the clock once a turn that started at
    reading [t0] is over. *)
Definition turnTicks (t0 : nat) (reply : Transport) : nat :=
  match reply with
  | Yields chunks Completes => (if anyParts chunks then 4 else 3) + t0
  | _ => 2 + catchTick t0 reply
  end.

(** The ids of a conversation are pairwise different and were all
    stamped by the clock before the reading that comes next. *)
Definition freshIds (now : nat -> N) (w : World) : Prop :=
  NoDup (map id (messages w))
  /\ Forall (fun i =>
               exists prefix k,
                 i = prefix ++ numberToString (now k) /\ k < ticks w
                 /\ (prefix = lit "user-" \/ prefix = lit "model-"
                     \/ prefix = lit "error-"))
       (map id (messages w)).

(** No [*] occurs in [s]. *)
Definition starFree (s : jsstring) : bool :=
  forallb (fun c => negb (N.eqb c 42)) s.

(** A text made of spans in bold, each behind a stretch of plain
    text, and of a plain tail:
    [pre1 ** t1 ** pre2 ** t2 ** ... tail]. *)
Definition markdownOf (spans : list (jsstring * jsstring)) (tail : jsstring)
  : jsstring :=
  fold_right
    (fun span rest => fst span ++ lit "**" ++ snd span ++ lit "**" ++ rest)
    tail spans.

(** No [.] occurs in [s]. *)
Definition dotFree (s : jsstring) : bool :=
  forallb (fun c => negb (N.eqb c 46)) s.

(** A stand-in for [toLowerCase] on the letters A to Z. *)
Definition asciiLower (s : jsstring) : jsstring :=
  map (fun c => if (N.leb 65 c && N.leb c 90)%bool then (c + 32)%N else c) s.

(* ================================================================== *)
(** * Properties *)
(* ================================================================== *)

(** ** Lists and strings *)

Lemma lastOf_snoc (A : Type) (l : list A) (x : A) : lastOf (l ++ [x]) = Some x.
Proof.
  induction l as [|a l IH]; [reflexivity|].
  simpl. rewrite IH. destruct (l ++ [x]) eqn:E; [|reflexivity].
  destruct l; discriminate.
Qed.

Lemma lastOf_None (A : Type) (l : list A) : lastOf l = None -> l = [].
Proof.
  destruct l as [|a l] using rev_ind; [reflexivity|].
  rewrite lastOf_snoc. discriminate.
Qed.

Lemma lastOf_Some (A : Type) (l : list A) (x : A) :
  lastOf l = Some x -> l = removelast l ++ [x].
Proof.
  destruct l as [|a l _] using rev_ind; [discriminate|].
  rewrite lastOf_snoc, removelast_last. congruence.
Qed.

Lemma lastOf_Some_snoc (A : Type) (l : list A) (x : A) :
  lastOf l = Some x -> exists base, l = base ++ [x].
Proof. intros H. exists (removelast l). now apply lastOf_Some. Qed.

Lemma strictEq_true (a b : jsstring) : strictEq a b = true <-> a = b.
Proof.
  unfold strictEq. destruct (jsstring_eq_dec a b); split; congruence.
Qed.

Lemma strictEq_refl (a : jsstring) : strictEq a a = true.
Proof. now apply strictEq_true. Qed.

Lemma strictEq_false (a b : jsstring) : strictEq a b = false <-> a <> b.
Proof.
  unfold strictEq. destruct (jsstring_eq_dec a b); split; congruence.
Qed.

(** ** The classifier *)

(** C4, as stated, fails: a fragment whose only field is an empty
    [text] carries one recognised field, yet [renderPart] returns
    [null] for it, and so does it for a lone [thought: false]. *)
Lemma C4_counterexample :
  populatedFields (textPart []) = [Text]
  /\ classify (textPart []) = Unknown
  /\ renderPart (textPart []) = None
  /\ populatedFields (thoughtPart (ThoughtBool false)) = [Thought]
  /\ classify (thoughtPart (ThoughtBool false)) = Unknown.
Proof. repeat split. Qed.

(** C4, amended. A fragment that carries exactly one of the five
    recognised fields, whose text (if that is the field) is not empty
    and whose thought (if that is the field) is not [false], is
    classified as the kind of that field; it is never Unknown and
    [renderPart] draws it.  A fragment whose only field is an empty
    text or a [false] thought is classified Unknown. *)
Theorem C4_classification_totality (f : Part) (k : Kind) :
  populatedFields f = [k] ->
  (text f <> Some [] ->
   thought f <> Some (ThoughtBool false) ->
   classify f = k /\ classify f <> Unknown /\ renderPart f <> None)
  /\ (text f = Some [] \/ thought f = Some (ThoughtBool false) ->
      classify f = Unknown).
Proof.
  destruct f as [t th ec cr img]; unfold populatedFields; simpl.
  intros Hk. split.
  - intros Ht Hth.
    destruct t as [[|c s]|], th as [[[|]|s']|], ec, cr, img;
      simpl in Hk; try discriminate;
      try (now elim Ht); try (now elim Hth);
      injection Hk as <-; repeat split; discriminate.
  - intros [-> | ->];
      [destruct th as [[[|]|s']|] | destruct t as [[|c s]|]];
      destruct ec, cr, img; simpl in Hk; try discriminate; reflexivity.
Qed.

Lemma C4_classification_totality_witness :
  classify (textPart (lit "answer")) = Text
  /\ classify (textPart (lit "answer")) <> Unknown
  /\ renderPart (textPart (lit "answer")) <> None.
Proof.
  apply (proj1 (@C4_classification_totality (textPart (lit "answer")) Text
                  eq_refl)).
  - discriminate.
  - discriminate.
Defined.

(** C5, as stated, fails twice: an empty string in [thought] is not
    truthy and still makes the part a thought, and the content that is
    drawn is trimmed, not the value itself. *)
Lemma C5_counterexample :
  classify (thoughtPart (ThoughtString [])) = Thought
  /\ truthyThought (thought (thoughtPart (ThoughtString []))) = false
  /\ renderPart (thoughtPart (ThoughtString (lit " the image")))
     = Some (RThought (lit "the image"))
  /\ lit "the image" <> lit " the image".
Proof. repeat split. discriminate. Qed.

(** C5, amended. [classify] returns Thought exactly when [thought] is
    [true] or is a string, the empty string included; every truthy
    thought is one of these.  The content of the thought is the
    [thought] value when it is a string, else the text of the fragment
    (the empty string when there is none), in both cases with the
    white space at its two ends trimmed off. *)
Theorem C5_thought_classification (f : Part) :
  (classify f = Thought
   <-> thought f = Some (ThoughtBool true)
       \/ exists s, thought f = Some (ThoughtString s))
  /\ (truthyThought (thought f) = true -> classify f = Thought)
  /\ (classify f = Thought ->
      renderPart f
      = Some (RThought
                (trim match thought f with
                      | Some (ThoughtString s) => s
                      | _ => orEmpty (text f)
                      end))).
Proof.
  destruct f as [t th ec cr img].
  unfold classify, renderPart, isThought, thoughtContent; simpl.
  repeat split.
  - destruct th as [[[|]|s]|]; eauto;
      destruct ec, cr, t as [[|? ?]|], img; discriminate.
  - intros [H | [s H]]; rewrite H; reflexivity.
  - destruct th as [[[|]|[|? ?]]|]; simpl; congruence.
  - destruct th as [[[|]|s]|]; try reflexivity;
      destruct ec, cr, t as [[|? ?]|], img; discriminate.
Qed.

Lemma C5_thought_classification_witness :
  let f := {| text := Some (lit "step 1"); thought := Some (ThoughtBool true);
              executableCode := None; codeExecutionResult := None;
              inlineData := None |} in
  classify f = Thought /\ renderPart f = Some (RThought (lit "step 1")).
Proof.
  intro f.
  destruct (C5_thought_classification f) as [Hiff [_ Hcontent]].
  assert (Hk : classify f = Thought)
    by (apply (proj2 Hiff); left; reflexivity).
  split; [exact Hk | exact (Hcontent Hk)].
Defined.

(** ** The merge-adjacency invariant *)

Lemma adjacentFree_snoc (A : Type) (same : A -> A -> bool) (l : list A) (x : A) :
  adjacentFree same (l ++ [x])
  = adjacentFree same l
    && match lastOf l with
       | Some y => negb (same y x)
       | None => true
       end.
Proof.
  induction l as [|a l IH]; [reflexivity|].
  destruct l as [|b l]; [simpl; now rewrite andb_true_r|].
  change (adjacentFree same ((a :: b :: l) ++ [x]))
    with (negb (same a b) && adjacentFree same ((b :: l) ++ [x])).
  rewrite IH. simpl. now rewrite andb_assoc.
Qed.

Lemma adjacentFree_nth (A : Type) (same : A -> A -> bool) (l : list A) :
  adjacentFree same l = true ->
  forall i a b,
    nth_error l i = Some a -> nth_error l (S i) = Some b -> same a b = false.
Proof.
  induction l as [|x l IH]; intros H i a b Ha Hb.
  - destruct i; discriminate.
  - destruct l as [|y l]; [destruct i; discriminate|].
    simpl in H. apply andb_true_iff in H as [Hxy Hl].
    destruct i as [|i].
    + simpl in Ha, Hb. injection Ha as <-. injection Hb as <-.
      now apply negb_true_iff.
    + exact (IH Hl i a b Ha Hb).
Qed.

Lemma Kind_eqb_eq (a b : Kind) : Kind_eqb a b = true <-> a = b.
Proof. destruct a, b; simpl; split; congruence. Qed.

(** Two parts that are both text, or both truthy thoughts, satisfy the
    test of [isSameType]. *)
Lemma bothMerged_sameType (l p : Part) :
  bothMerged l p = true -> sameType p l = true.
Proof.
  destruct l as [t th ec cr img], p as [t' th' ec' cr' img'].
  unfold bothMerged, sameType, classify, renderPart, isThought; simpl.
  destruct th as [[[|]|[|? ?]]|], th' as [[[|]|[|? ?]]|]; simpl;
    try reflexivity; try (now rewrite ?andb_false_r; intros H);
    destruct ec, ec'; simpl; try (rewrite ?andb_false_r; discriminate);
    destruct cr, cr', t as [[|? ?]|], t' as [[|? ?]|], img, img';
    simpl; congruence.
Qed.

(** Appending to the text of the last part, when [isSameType] holds,
    changes neither its kind nor the truthiness of its thought. *)
Lemma setText_classify (l p : Part) (c : N) (s : jsstring) :
  sameType p l = true ->
  text p = Some (c :: s) ->
  classify (setText l (orEmpty (text l) ++ c :: s)) = classify l.
Proof.
  destruct l as [t th ec cr img], p as [t' th' ec' cr' img'].
  unfold sameType, classify, renderPart, isThought; simpl.
  intros H ->.
  destruct th as [[[|]|[|? ?]]|]; try reflexivity;
    simpl in H; rewrite ?andb_false_r in H; simpl in H;
    try (destruct th' as [[[|]|[|? ?]]|]; discriminate);
    destruct t as [[|? ?]|]; simpl in *; try discriminate;
    destruct ec, cr; reflexivity.
Qed.

Lemma bothMerged_setText (y l p : Part) (c : N) (s : jsstring) :
  sameType p l = true ->
  text p = Some (c :: s) ->
  bothMerged y (setText l (orEmpty (text l) ++ c :: s)) = bothMerged y l.
Proof.
  intros H Ht. unfold bothMerged.
  now rewrite (setText_classify l p H Ht).
Qed.

(** One step of the loop keeps the invariant. *)
Lemma mergePart_adjacentFree (acc : list Part) (p : Part) :
  adjacentFree bothMerged acc = true ->
  adjacentFree bothMerged (mergePart acc p) = true.
Proof.
  intros Hacc. unfold mergePart.
  destruct (lastOf acc) as [l|] eqn:Hlast.
  - simpl. destruct (sameType p l) eqn:Hsame.
    + destruct (text p) as [[|c s]|] eqn:Ht; try exact Hacc.
      rewrite (lastOf_Some _ Hlast) in Hacc.
      rewrite adjacentFree_snoc in Hacc |- *.
      apply andb_true_iff in Hacc as [H1 H2].
      rewrite H1. simpl.
      destruct (lastOf (removelast acc)); [|reflexivity].
      now rewrite (bothMerged_setText _ _ _ Hsame Ht).
    + rewrite adjacentFree_snoc, Hacc, Hlast. simpl.
      apply negb_true_iff.
      destruct (bothMerged l p) eqn:Hb; [|reflexivity].
      apply bothMerged_sameType in Hb. congruence.
  - rewrite adjacentFree_snoc, Hacc, Hlast. reflexivity.
Qed.

Lemma accumulate_adjacentFree (incomingParts acc : list Part) :
  adjacentFree bothMerged acc = true ->
  adjacentFree bothMerged (accumulate acc incomingParts) = true.
Proof.
  revert acc. induction incomingParts as [|p ps IH]; intros acc H.
  - exact H.
  - simpl. apply IH. now apply mergePart_adjacentFree.
Qed.

Lemma accumulateChunks_adjacentFree
  (chunks : list GenAI.GenerateContentResponse) (acc : list Part) :
  adjacentFree bothMerged acc = true ->
  adjacentFree bothMerged (accumulateChunks acc chunks) = true.
Proof.
  revert acc. induction chunks as [|c cs IH]; intros acc H; [exact H|].
  unfold accumulateChunks. cbn [fold_left]. apply IH.
  destruct (incomingPartsOf c); [now apply accumulate_adjacentFree|exact H].
Qed.

(** A part that is drawn as text has a text that is not empty. *)
Lemma classify_Text_text (p : Part) :
  classify p = Text -> exists c s, text p = Some (c :: s).
Proof.
  destruct p as [t th ec cr img].
  unfold classify, renderPart, isThought; simpl.
  destruct t as [[|c0 s0]|], th as [[[|]|s']|], ec, cr, img;
    try discriminate; intros _; now exists c0, s0.
Qed.

(** C2, as stated, fails.  With the kinds of the specification, where
    an empty text is a Text, the fragments [{text:"a"}], [{text:""}]
    leave two Text blocks side by side: the empty text is falsy, so the
    source pushes it.  With the kinds of [renderPart], two fragments
    [{thought:""}] leave two Thought blocks side by side, for the same
    reason. *)
Lemma C2_counterexample :
  accumulate [] [textPart (lit "a"); textPart []]
  = [textPart (lit "a"); textPart []]
  /\ adjacentFree (bothMergeable specClassify)
       (accumulate [] [textPart (lit "a"); textPart []]) = false
  /\ adjacentFree (bothMergeable classify)
       (accumulate [] [thoughtPart (ThoughtString []);
                       thoughtPart (ThoughtString [])]) = false.
Proof. repeat split. Qed.

(** C2, amended. In every list that the accumulator produces from an
    empty list, no two consecutive blocks are both drawn as text and no
    two consecutive blocks both carry a truthy thought; the same holds
    for the parts accumulated over the chunks of a stream.  When the
    last block and the incoming fragment are such a pair, no block is
    added, and the text of the fragment, when it is not empty, is
    appended to the text of the last block; for a pair of text blocks
    this always happens, and the block then holds the two texts one
    after the other.  A fragment whose only field is an empty text is
    not merged: it is appended as a block of its own. *)
Theorem C2_merge_adjacency (fragments : list Part) :
  adjacentFree bothMerged (accumulate [] fragments) = true
  /\ (forall chunks, adjacentFree bothMerged (accumulateChunks [] chunks) = true)
  /\ (forall i a b,
        nth_error (accumulate [] fragments) i = Some a ->
        nth_error (accumulate [] fragments) (S i) = Some b ->
        ~ (classify a = Text /\ classify b = Text)
        /\ ~ (truthyThought (thought a) = true
              /\ truthyThought (thought b) = true))
  /\ (forall acc l p,
        lastOf acc = Some l -> bothMerged l p = true ->
        List.length (mergePart acc p) = List.length acc
        /\ (forall c s,
              text p = Some (c :: s) ->
              mergePart acc p
              = removelast acc ++ [setText l (orEmpty (text l) ++ c :: s)])
        /\ (classify l = Text -> classify p = Text ->
            exists t u,
              text l = Some t /\ text p = Some u /\ u <> []
              /\ mergePart acc p = removelast acc ++ [setText l (t ++ u)]))
  /\ (forall acc, mergePart acc (textPart []) = acc ++ [textPart []]).
Proof.
  assert (Hinv : adjacentFree bothMerged (accumulate [] fragments) = true)
    by now apply accumulate_adjacentFree.
  split; [exact Hinv|].
  split; [intros chunks; now apply accumulateChunks_adjacentFree|].
  split; [|split].
  - intros i a b Hi Hsi.
    pose proof (adjacentFree_nth _ _ Hinv _ Hi Hsi) as Hf.
    unfold bothMerged in Hf. split; intros [Ha Hb]; rewrite Ha, Hb in Hf.
    + discriminate.
    + rewrite orb_true_r in Hf. discriminate.
  - intros acc l p Hlast Hb.
    pose proof (bothMerged_sameType _ _ Hb) as Hsame.
    assert (Hstep : forall c s,
               text p = Some (c :: s) ->
               mergePart acc p
               = removelast acc ++ [setText l (orEmpty (text l) ++ c :: s)]).
    { intros c s Ht. unfold mergePart. rewrite Hlast.
      cbn [isSameType]. now rewrite Hsame, Ht. }
    split; [|split; [exact Hstep|]].
    + unfold mergePart. rewrite Hlast. cbn [isSameType]. rewrite Hsame.
      destruct (text p) as [[|c s]|]; try reflexivity.
      destruct (lastOf_Some_snoc _ Hlast) as [base ->].
      now rewrite removelast_last, !length_app.
    + intros Hl Hp.
      destruct (classify_Text_text _ Hl) as (c0 & t0 & El).
      destruct (classify_Text_text _ Hp) as (c & s & Ep).
      exists (c0 :: t0), (c :: s).
      split; [exact El|]. split; [exact Ep|]. split; [discriminate|].
      rewrite (Hstep c s Ep), El. reflexivity.
  - intros acc. unfold mergePart.
    destruct (lastOf acc) as [l|]; reflexivity.
Qed.

Lemma C2_merge_adjacency_witness :
  let fragments := [textPart (lit "a"); textPart (lit "b");
                    thoughtPart (ThoughtBool true)] in
  accumulate [] fragments
  = [textPart (lit "ab"); thoughtPart (ThoughtBool true)]
  /\ ~ (classify (textPart (lit "ab")) = Text
        /\ classify (thoughtPart (ThoughtBool true)) = Text)
  /\ List.length (mergePart [textPart (lit "a")] (textPart (lit "b"))) = 1
  /\ mergePart [textPart (lit "a")] (textPart (lit "b"))
     = [textPart (lit "ab")].
Proof.
  intro fragments.
  destruct (C2_merge_adjacency fragments) as [_ [_ [Hnth [Hmerge _]]]].
  destruct (Hmerge [textPart (lit "a")] (textPart (lit "a"))
              (textPart (lit "b")) eq_refl eq_refl) as [Hlen [Hstep _]].
  split; [reflexivity|split; [|split]].
  - exact (proj1 (Hnth 0 (textPart (lit "ab")) (thoughtPart (ThoughtBool true))
                    eq_refl eq_refl)).
  - exact Hlen.
  - exact (Hstep 98%N [] eq_refl).
Defined.

(** ** The store update *)

Lemma applyTurn_replace (timeNow : N) (prev : list ChatMessage)
  (l : ChatMessage) (blocks : list Part) :
  applyTurn timeNow (prev ++ [l]) (id l) blocks
  = prev ++ [{| id := id l; role := model; parts := blocks;
                timestamp := timestamp l |}].
Proof.
  unfold applyTurn. rewrite lastOf_snoc. simpl.
  now rewrite strictEq_refl, removelast_last.
Qed.

Lemma applyTurn_append (timeNow : N) (prev : list ChatMessage)
  (messageId : jsstring) (blocks : list Part) :
  lastHasId (lastOf prev) messageId = false ->
  applyTurn timeNow prev messageId blocks
  = prev ++ [{| id := messageId; role := model; parts := blocks;
                timestamp := timeNow |}].
Proof.
  unfold applyTurn. intros H. rewrite H.
  destruct (lastOf prev) as [l|]; [|reflexivity].
  simpl in H. now rewrite H.
Qed.

(** C6. When the last message of the conversation has the given id,
    [applyTurn] replaces it by a message with the new blocks and the
    timestamp of the one it replaces, and the conversation keeps its
    length.  Otherwise it appends a message with that id and the
    current time.  A second call with the same id never adds a
    message, so two calls on a conversation that does not end with the
    id add exactly one. *)
Theorem C6_applyTurn (timeNow timeNow' : N) (prev : list ChatMessage)
  (messageId : jsstring) (blocks blocks' : list Part) :
  (forall l,
      lastOf prev = Some l -> id l = messageId ->
      applyTurn timeNow prev messageId blocks
      = removelast prev
          ++ [{| id := messageId; role := model; parts := blocks;
                 timestamp := timestamp l |}]
      /\ List.length (applyTurn timeNow prev messageId blocks) = List.length prev)
  /\ ((forall l, lastOf prev = Some l -> id l <> messageId) ->
      applyTurn timeNow prev messageId blocks
      = prev ++ [{| id := messageId; role := model; parts := blocks;
                    timestamp := timeNow |}]
      /\ applyTurn timeNow' (applyTurn timeNow prev messageId blocks)
           messageId blocks'
         = prev ++ [{| id := messageId; role := model; parts := blocks';
                       timestamp := timeNow |}]
      /\ List.length (applyTurn timeNow' (applyTurn timeNow prev messageId blocks)
                   messageId blocks')
         = S (List.length prev))
  /\ List.length (applyTurn timeNow' (applyTurn timeNow prev messageId blocks)
               messageId blocks')
     = List.length (applyTurn timeNow prev messageId blocks).
Proof.
  assert (Hfresh : (forall l, lastOf prev = Some l -> id l <> messageId) ->
                   lastHasId (lastOf prev) messageId = false).
  { intros H. destruct (lastOf prev) as [l|] eqn:E; [|reflexivity].
    simpl. apply strictEq_false. now apply H. }
  assert (Hsecond : forall m,
             id m = messageId ->
             forall base, applyTurn timeNow' (base ++ [m]) messageId blocks'
             = base ++ [{| id := messageId; role := model; parts := blocks';
                           timestamp := timestamp m |}]).
  { intros m <- base. apply applyTurn_replace. }
  split; [|split].
  - intros l Hlast <-.
    destruct (lastOf_Some_snoc _ Hlast) as [base ->].
    rewrite applyTurn_replace, removelast_last.
    split; [reflexivity|]. now rewrite !length_app.
  - intros H. specialize (Hfresh H).
    rewrite (@applyTurn_append _ _ _ _ Hfresh).
    rewrite Hsecond by reflexivity.
    repeat split. rewrite length_app. simpl. lia.
  - destruct (lastOf prev) as [l|] eqn:Hlast.
    + destruct (jsstring_eq_dec (id l) messageId) as [<-|Hne].
      * destruct (lastOf_Some_snoc _ Hlast) as [base ->].
        rewrite applyTurn_replace, Hsecond by reflexivity.
        now rewrite !length_app.
      * assert (Hf : lastHasId (lastOf prev) messageId = false)
          by (rewrite Hlast; now apply strictEq_false).
        rewrite (@applyTurn_append _ _ _ _ Hf), Hsecond by reflexivity.
        now rewrite !length_app.
    + assert (Hf : lastHasId (lastOf prev) messageId = false)
        by now rewrite Hlast.
      rewrite (@applyTurn_append _ _ _ _ Hf), Hsecond by reflexivity.
      now rewrite !length_app.
Qed.

Lemma C6_applyTurn_witness :
  let m := {| id := lit "model-1"; role := model; parts := [];
              timestamp := 7%N |} in
  (applyTurn 9%N [m] (lit "model-1") [textPart (lit "x")]
   = removelast [m]
       ++ [{| id := lit "model-1"; role := model;
              parts := [textPart (lit "x")]; timestamp := 7%N |}]
   /\ List.length (applyTurn 9%N [m] (lit "model-1") [textPart (lit "x")])
      = List.length [m])
  /\ List.length
       (applyTurn 9%N (applyTurn 8%N [] (lit "model-1") [])
          (lit "model-1") [textPart (lit "x")])
     = 1.
Proof.
  intro m. split.
  - apply (proj1 (C6_applyTurn 9%N 9%N [m] (lit "model-1")
                    [textPart (lit "x")] []) m); reflexivity.
  - apply (proj1 (proj2 (C6_applyTurn 8%N 9%N [] (lit "model-1")
                           [] [textPart (lit "x")]))).
    intros l H. discriminate H.
Defined.

(** ** Chunks without parts *)

Lemma incomingPartsOf_None (chunk : GenAI.GenerateContentResponse) :
  incomingPartsOf chunk = None
  <-> GenAI.candidates chunk = None
      \/ GenAI.candidates chunk = Some []
      \/ exists c cs,
           GenAI.candidates chunk = Some (c :: cs)
           /\ (GenAI.content c = None
               \/ exists ct, GenAI.content c = Some ct
                             /\ GenAI.parts ct = None).
Proof.
  unfold incomingPartsOf.
  destruct (GenAI.candidates chunk) as [[|c cs]|]; simpl.
  - split; auto.
  - destruct (GenAI.content c) as [ct|] eqn:Hc.
    + split.
      * intros H. right. right. exists c, cs. split; [reflexivity|].
        right. exists ct. now split.
      * intros [H|[H|(c' & cs' & H & [Hn|(ct' & Hs & Hp)])]];
          try discriminate; injection H as <- <-; congruence.
    + split; [|reflexivity].
      intros _. right. right. exists c, cs. split; [reflexivity|now left].
  - split; auto.
Qed.

(** C10. A chunk whose first candidate has no [parts] array (no
    candidates, no first candidate, no content, or no parts in the
    content) leaves the accumulated parts and the whole state as they
    were: the conversation is the same, no message is created or
    replaced, and the clock is not read. *)
Theorem C10_chunk_without_parts (now : nat -> N) (modelMessageId : jsstring)
  (accumulatedParts : list Part) (chunk : GenAI.GenerateContentResponse)
  (w : World) :
  incomingPartsOf chunk = None ->
  processChunk now modelMessageId accumulatedParts chunk w
  = (accumulatedParts, w)
  /\ messages (exec (processChunk now modelMessageId accumulatedParts chunk) w)
     = messages w.
Proof.
  intros H. unfold exec, processChunk. rewrite H. now split.
Qed.

Lemma C10_chunk_without_parts_witness :
  let chunk := {| GenAI.candidates :=
                    Some [{| GenAI.content :=
                               Some {| GenAI.parts := None;
                                       GenAI.role := Some model |} |}] |} in
  let w := {| messages := []; isLoading := true; ticks := 3; sent := [] |} in
  processChunk (fun _ => 0%N) (lit "model-1") [textPart (lit "x")] chunk w
  = ([textPart (lit "x")], w)
  /\ messages (exec (processChunk (fun _ => 0%N) (lit "model-1")
                       [textPart (lit "x")] chunk) w)
     = messages w.
Proof.
  intros chunk w.
  apply (@C10_chunk_without_parts (fun _ => 0%N) (lit "model-1")
           [textPart (lit "x")] chunk w).
  reflexivity.
Defined.

(** ** The data-URL pattern *)

Lemma stripPrefix_Some (p s r : jsstring) :
  stripPrefix p s = Some r <-> s = p ++ r.
Proof.
  revert s. induction p as [|a p IH]; intros s; simpl.
  - split; congruence.
  - destruct s as [|b s]; [split; discriminate|].
    destruct (N.eqb_spec a b) as [<-|Hne].
    + rewrite IH. split; congruence.
    + split; [discriminate|]. intros H. injection H as H _. congruence.
Qed.

Lemma stripPrefix_app (p r : jsstring) : stripPrefix p (p ++ r) = Some r.
Proof. now apply stripPrefix_Some. Qed.

(** What the matcher returns is a decomposition of the input. *)
Lemma matchGroups_sound (s m d : jsstring) :
  matchGroups s = Some (m, d) ->
  s = m ++ lit ";base64," ++ d
  /\ m <> [] /\ d <> []
  /\ noLineTerminator m = true /\ noLineTerminator d = true.
Proof.
  revert m d. induction s as [|c s IH]; intros m d H; [discriminate|].
  cbn [matchGroups] in H. destruct (isLineTerminator c) eqn:Hc; [discriminate|].
  destruct (matchGroups s) as [[m' d']|].
  - injection H as <- <-.
    destruct (IH _ _ eq_refl) as (-> & Hm & Hd & Hlm & Hld).
    repeat split; try assumption; try discriminate.
    simpl. now rewrite Hc.
  - destruct (stripPrefix (lit ";base64,") s) as [[|d0 d1]|] eqn:Hs;
      try discriminate.
    destruct (noLineTerminator (d0 :: d1)) eqn:Hld; [|discriminate].
    injection H as <- <-.
    apply stripPrefix_Some in Hs. subst s.
    repeat split; try assumption; try discriminate.
    simpl. now rewrite Hc.
Qed.

(** Every decomposition makes the matcher succeed, with a first group
    at least as long: the first group is greedy. *)
Lemma matchGroups_complete (m d : jsstring) :
  m <> [] -> d <> [] ->
  noLineTerminator m = true -> noLineTerminator d = true ->
  exists m' d',
    matchGroups (m ++ lit ";base64," ++ d) = Some (m', d')
    /\ List.length m <= List.length m'.
Proof.
  intros Hm Hd Hlm Hld.
  induction m as [|c m IH]; [congruence|].
  simpl in Hlm. apply andb_true_iff in Hlm as [Hc Hlm].
  apply negb_true_iff in Hc.
  change ((c :: m) ++ lit ";base64," ++ d)
    with (c :: (m ++ lit ";base64," ++ d)).
  cbn [matchGroups]. rewrite Hc.
  destruct m as [|c' m].
  - cbn [app].
    destruct (matchGroups (lit ";base64," ++ d)) as [[m' d']|].
    + exists (c :: m'), d'. split; [reflexivity|simpl; lia].
    + rewrite stripPrefix_app.
      destruct d as [|d0 d1]; [congruence|].
      rewrite Hld. exists [c], (d0 :: d1). split; [reflexivity|simpl; lia].
  - destruct (IH ltac:(discriminate) Hlm) as (m' & d' & -> & Hlen).
    exists (c :: m'), d'. split; [reflexivity|simpl in *; lia].
Qed.

Lemma dataUrlMatch_sound (image m d : jsstring) :
  dataUrlMatch image = Some (m, d) -> isDataUrl image m d.
Proof.
  unfold dataUrlMatch, isDataUrl.
  destruct (stripPrefix (lit "data:") image) as [rest|] eqn:Hp;
    [|discriminate].
  intros H. apply stripPrefix_Some in Hp.
  destruct (matchGroups_sound _ H) as (-> & ?). now subst image.
Qed.

Lemma dataUrlMatch_complete (image m d : jsstring) :
  isDataUrl image m d ->
  exists m' d', dataUrlMatch image = Some (m', d')
                /\ List.length m <= List.length m'.
Proof.
  intros (-> & Hm & Hd & Hlm & Hld). unfold dataUrlMatch.
  rewrite stripPrefix_app. now apply matchGroups_complete.
Qed.

(** The pattern fails exactly on the strings that are not data URLs. *)
Lemma dataUrlMatch_None (image : jsstring) :
  dataUrlMatch image = None <-> forall m d, ~ isDataUrl image m d.
Proof.
  split.
  - intros H m d Hu.
    destruct (dataUrlMatch_complete Hu) as (m' & d' & H' & _). congruence.
  - intros H. destruct (dataUrlMatch image) as [[m d]|] eqn:E; [|reflexivity].
    elim (H m d). now apply dataUrlMatch_sound.
Qed.

(** C8. When the image string is not of the form
    [data:<mimeType>;base64,<payload>], the request that leaves
    [sendMessageStream] carries the text part alone.  When it matches
    and the captured mime type is [application/octet-stream], the
    request carries the text part and an inline image whose mime type
    is [image/jpeg] and whose data is the captured payload. *)
Theorem C8_image_attachment (reply : Transport) (message image : jsstring)
  (history : list GenAI.Content) (w : World) :
  let w' := exec (sendMessageStream reply message history (Some image)) w in
  ((forall m d, ~ isDataUrl image m d) ->
   sent w' = sent w ++ [{| history := history;
                           message := [textPart message] |}])
  /\ (forall d,
        dataUrlMatch image = Some (lit "application/octet-stream", d) ->
        isDataUrl image (lit "application/octet-stream") d
        /\ sent w'
           = sent w
               ++ [{| history := history;
                      message :=
                        [textPart message;
                         inlineDataPart {| mimeType := lit "image/jpeg";
                                           data := d |}] |}]).
Proof.
  unfold exec, sendMessageStream, bind, transportSend, ret, imagePartOf.
  simpl. split.
  - intros H. apply dataUrlMatch_None in H.
    destruct image as [|c s]; [reflexivity|]. now rewrite H.
  - intros d H. split; [now apply dataUrlMatch_sound|].
    destruct image as [|c s]; [discriminate|]. now rewrite H.
Qed.

Lemma C8_image_attachment_witness :
  let w := {| messages := []; isLoading := true; ticks := 2; sent := [] |} in
  sent (exec (sendMessageStream Rejects (lit "hi") [] (Some (lit "hello"))) w)
  = [{| history := []; message := [textPart (lit "hi")] |}]
  /\ sent (exec (sendMessageStream Rejects (lit "hi") []
                   (Some (lit "data:application/octet-stream;base64,QUJD"))) w)
     = [{| history := [];
           message := [textPart (lit "hi");
                       inlineDataPart {| mimeType := lit "image/jpeg";
                                         data := lit "QUJD" |}] |}].
Proof.
  intro w. split.
  - apply (proj1 (C8_image_attachment Rejects (lit "hi") (lit "hello") [] w)).
    apply dataUrlMatch_None. reflexivity.
  - apply (proj2 (C8_image_attachment Rejects (lit "hi")
                    (lit "data:application/octet-stream;base64,QUJD") [] w)
             (lit "QUJD")).
    reflexivity.
Defined.

(** ** A whole turn of [handleSend] *)

Lemma applyTurn_open (t : N) (base : list ChatMessage) (m : ChatMessage)
  (acc : list Part) :
  applyTurn t (base ++ [m]) (id m) acc
  = base ++ [modelMessage (id m) acc (timestamp m)].
Proof. apply applyTurn_replace. Qed.

Lemma accumulateChunks_noParts (chunks : list GenAI.GenerateContentResponse)
  (acc : list Part) :
  anyParts chunks = false -> accumulateChunks acc chunks = acc.
Proof.
  induction chunks as [|c cs IH]; [reflexivity|].
  unfold anyParts, accumulateChunks in *. simpl.
  destruct (incomingPartsOf c); [discriminate|]. exact IH.
Qed.

(** The loop, once the model message of the turn is in the store:
    every chunk with parts replaces it and keeps its timestamp. *)
Lemma forAwait_open (now : nat -> N)
  (chunks : list GenAI.GenerateContentResponse) :
  forall (acc : list Part) (base : list ChatMessage) (m : ChatMessage)
         (ld : bool) (tk : nat) (st : list Request),
    forAwait now (id m) chunks acc
      {| messages := base ++ [m]; isLoading := ld; ticks := tk; sent := st |}
    = (accumulateChunks acc chunks,
       {| messages :=
            base ++ [if anyParts chunks
                     then modelMessage (id m) (accumulateChunks acc chunks)
                            (timestamp m)
                     else m];
          isLoading := ld; ticks := tk; sent := st |}).
Proof.
  induction chunks as [|c cs IH]; intros acc base m ld tk st; [reflexivity|].
  cbn [forAwait]. unfold bind, processChunk, anyParts, accumulateChunks.
  cbn [existsb fold_left].
  destruct (incomingPartsOf c) as [ps|]; cbn [truthyObject orb].
  - unfold publish, bind, getMessages, setMessages, ret. cbn.
    rewrite lastOf_snoc. cbn. rewrite strictEq_refl. cbn.
    rewrite applyTurn_open.
    change (id m) with (id (modelMessage (id m) (accumulate acc ps) (timestamp m))).
    rewrite IH. cbn.
    fold (accumulateChunks (accumulate acc ps) cs). fold (anyParts cs).
    destruct (anyParts cs) eqn:Hany; [reflexivity|].
    now rewrite (accumulateChunks_noParts _ _ Hany).
  - unfold ret. apply IH.
Qed.

(** The loop, entered on a conversation that does not end with the
    model message of the turn: the first chunk with parts appends it,
    at the time of that chunk. *)
Lemma forAwait_fresh (now : nat -> N) (modelMessageId : jsstring)
  (chunks : list GenAI.GenerateContentResponse) :
  forall (acc : list Part) (ms : list ChatMessage)
         (ld : bool) (tk : nat) (st : list Request),
    lastHasId (lastOf ms) modelMessageId = false ->
    forAwait now modelMessageId chunks acc
      {| messages := ms; isLoading := ld; ticks := tk; sent := st |}
    = (accumulateChunks acc chunks,
       if anyParts chunks
       then {| messages :=
                 ms ++ [modelMessage modelMessageId
                          (accumulateChunks acc chunks) (now tk)];
               isLoading := ld; ticks := S tk; sent := st |}
       else {| messages := ms; isLoading := ld; ticks := tk; sent := st |}).
Proof.
  induction chunks as [|c cs IH]; intros acc ms ld tk st Hfresh;
    [reflexivity|].
  cbn [forAwait]. unfold bind, processChunk, anyParts, accumulateChunks.
  cbn [existsb fold_left].
  destruct (incomingPartsOf c) as [ps|]; cbn [truthyObject orb].
  - unfold publish, bind, getMessages, setMessages, dateNow, ret. cbn.
    rewrite Hfresh. cbn.
    rewrite (@applyTurn_append _ _ _ _ Hfresh).
    pose proof (forAwait_open now cs (accumulate acc ps) ms
                  (modelMessage modelMessageId (accumulate acc ps) (now tk))
                  ld (S tk) st) as Hopen.
    cbn [id modelMessage timestamp] in Hopen.
    unfold modelMessage in Hopen |- *. rewrite Hopen.
    fold (accumulateChunks (accumulate acc ps) cs).
    destruct (anyParts cs) eqn:Hany; [reflexivity|].
    now rewrite (accumulateChunks_noParts _ _ Hany).
  - unfold ret. now apply IH.
Qed.

Lemma user_id_not_model (a b : jsstring) :
  strictEq (lit "user-" ++ a) (lit "model-" ++ b) = false.
Proof. apply strictEq_false. intros H. discriminate H. Qed.

Lemma error_id_not_model (a b : jsstring) :
  lit "error-" ++ a <> lit "model-" ++ b.
Proof. intros H. discriminate H. Qed.

(** The [catch] block appends the error message and touches nothing
    else of the conversation. *)
Lemma catchBlock_messages (now : nat -> N) (w : World) :
  exec (catchBlock now) w
  = {| messages :=
         messages w ++ [errorMessage (now (ticks w)) (now (S (ticks w)))];
       isLoading := isLoading w;
       ticks := S (S (ticks w));
       sent := sent w |}.
Proof. reflexivity. Qed.

(** What a whole turn does to the state, in closed form. *)
Lemma handleSend_turn (now : nat -> N) (reply : Transport)
  (text : jsstring) (image : option jsstring) (w : World) :
  isLoading w = false ->
  messages (exec (handleSend now reply text image) w)
  = messages w ++ turnMessages now (ticks w) reply text image
  /\ isLoading (exec (handleSend now reply text image) w) = false
  /\ exists request,
       sent (exec (handleSend now reply text image) w) = sent w ++ [request].
Proof.
  destruct w as [ms ld tk st]. cbn [isLoading messages ticks sent].
  intros ->.
  unfold exec, handleSend, tryBlock, catchBlock, sendMessageStream,
    transportSend, bind, getIsLoading, getMessages, dateNow,
    setMessages, setIsLoading, ret.
  cbn [isLoading messages ticks sent fst snd].
  destruct reply as [|chunks fin].
  - cbn. rewrite <- app_assoc. repeat split. eexists. reflexivity.
  - cbn [isLoading messages ticks sent fst snd].
    rewrite forAwait_fresh
      by (rewrite lastOf_snoc; apply user_id_not_model).
    unfold turnMessages, streamedMessages, catchTick.
    destruct (anyParts chunks), fin; cbn;
      rewrite <- ?app_assoc; cbn;
      repeat split; eexists; reflexivity.
Qed.

(** A turn whose stream completes after chunks with parts leaves the
    user's message and one model message behind the conversation. *)
Lemma handleSend_completes (now : nat -> N) (ms : list ChatMessage)
  (tk : nat) (st : list Request) (text : jsstring) (image : option jsstring)
  (chunks : list GenAI.GenerateContentResponse) :
  anyParts chunks = true ->
  messages
    (exec (handleSend now (Yields chunks Completes) text image)
       {| messages := ms; isLoading := false; ticks := tk; sent := st |})
  = ms ++ [newUserMessage (now tk) (now (1 + tk)) text image;
           modelMessage (lit "model-" ++ numberToString (now (2 + tk)))
             (accumulateChunks [] chunks) (now (3 + tk))].
Proof.
  intros Hany.
  destruct (handleSend_turn now (Yields chunks Completes) text image
              {| messages := ms; isLoading := false; ticks := tk; sent := st |}
              eq_refl) as (H & _).
  rewrite H. unfold turnMessages, streamedMessages. cbn [messages ticks].
  now rewrite Hany.
Qed.

(** ** Transport errors *)



(** C9. When the stream raises after chunks with parts have been
    accumulated, the conversation holds what it would hold had the
    stream completed there, the partial model message included and
    unchanged, followed by the error message as one more model message;
    the id of that message is ["error-"] followed by the time of the
    catch, and differs from the id of the partial message.  The failed
    turn thus adds two model messages to the conversation.  The [catch]
    block only ever appends. *)
Theorem C9_partial_message_kept (now : nat -> N)
  (chunks : list GenAI.GenerateContentResponse)
  (text : jsstring) (image : option jsstring) (w : World) :
  isLoading w = false ->
  anyParts chunks = true ->
  let completed := exec (handleSend now (Yields chunks Completes) text image) w in
  let failed := exec (handleSend now (Yields chunks Raises) text image) w in
  let partial :=
    modelMessage (lit "model-" ++ numberToString (now (2 + ticks w)))
      (accumulateChunks [] chunks) (now (3 + ticks w)) in
  let notice := errorMessage (now (4 + ticks w)) (now (5 + ticks w)) in
  messages completed
  = messages w
      ++ [newUserMessage (now (ticks w)) (now (1 + ticks w)) text image;
          partial]
  /\ messages failed = messages completed ++ [notice]
  /\ id notice = lit "error-" ++ numberToString (now (4 + ticks w))
  /\ id notice <> id partial
  /\ role partial = model /\ role notice = model
  /\ countModel (messages failed) = 2 + countModel (messages w)
  /\ (forall w0,
        messages (exec (catchBlock now) w0)
        = messages w0
            ++ [errorMessage (now (ticks w0)) (now (S (ticks w0)))]).
Proof.
  intros Hidle Hany completed failed partial notice.
  destruct (handleSend_turn now (Yields chunks Completes) text image w Hidle)
    as (Hc & _).
  destruct (handleSend_turn now (Yields chunks Raises) text image w Hidle)
    as (Hf & _).
  fold completed in Hc. fold failed in Hf.
  unfold turnMessages, streamedMessages, catchTick in Hc, Hf.
  rewrite Hany in Hc, Hf. cbn [app] in Hc, Hf.
  assert (Hcompleted :
    messages completed
    = messages w
        ++ [newUserMessage (now (ticks w)) (now (1 + ticks w)) text image;
            partial]) by exact Hc.
  assert (Hfailed : messages failed = messages completed ++ [notice]).
  { rewrite Hf, Hcompleted, <- app_assoc. reflexivity. }
  repeat split; try assumption.
  - apply error_id_not_model.
  - rewrite Hfailed, Hcompleted. unfold countModel.
    rewrite !filter_app, !length_app. cbn. lia.
Qed.

Lemma C9_partial_message_kept_witness :
  countModel
    (messages (exec (handleSend sampleClock
                       (Yields [chunkOf [textPart (lit "Let me")]] Raises)
                       (lit "again") None) sampleWorld))
  = 2 + countModel (messages sampleWorld).
Proof.
  exact (proj1 (proj2 (proj2 (proj2 (proj2 (proj2 (proj2
           (@C9_partial_message_kept sampleClock
              [chunkOf [textPart (lit "Let me")]] (lit "again") None
              sampleWorld eq_refl eq_refl)))))))).
Defined.

(** ** The accumulator on the scenarios of the specification *)

(** C3. Feeding [{text:"Hel"}], [{text:"lo "}], [{text:"world"}] to the
    accumulator from an empty list, in one chunk or one chunk at a
    time, yields exactly one block; it is drawn as the text
    ["Hello world"], each delta being appended to the last block. *)
Theorem C3_concatenation :
  let f1 := textPart (lit "Hel") in
  let f2 := textPart (lit "lo ") in
  let f3 := textPart (lit "world") in
  accumulate [] [f1; f2; f3] = [textPart (lit "Hello world")]
  /\ accumulate (accumulate (accumulate [] [f1]) [f2]) [f3]
     = [textPart (lit "Hello world")]
  /\ accumulateChunks [] [chunkOf [f1]; chunkOf [f2]; chunkOf [f3]]
     = [textPart (lit "Hello world")]
  /\ map classify (accumulate [] [f1; f2; f3]) = [Text]
  /\ map renderPart (accumulate [] [f1; f2; f3])
     = [Some (RText (lit "Hel" ++ lit "lo " ++ lit "world"))]
  /\ (forall now ms tk st text image,
        messages
          (exec (handleSend now
                   (Yields [chunkOf [f1]; chunkOf [f2]; chunkOf [f3]] Completes)
                   text image)
             {| messages := ms; isLoading := false; ticks := tk; sent := st |})
        = ms ++ [newUserMessage (now tk) (now (1 + tk)) text image;
                 modelMessage (lit "model-" ++ numberToString (now (2 + tk)))
                   [textPart (lit "Hello world")] (now (3 + tk))]).
Proof.
  repeat split. intros now ms tk st text image.
  exact (handleSend_completes now ms tk st text image
           [chunkOf [textPart (lit "Hel")]; chunkOf [textPart (lit "lo ")];
            chunkOf [textPart (lit "world")]] eq_refl).
Qed.

(** C1. On the end-to-end scenario the accumulator returns four blocks
    of the kinds Thought, ExecutableCode, CodeExecutionResult and Text,
    but the thought block holds only ["**Plan**: crop"]: the second
    thought fragment has no [text], so the merge branch adds nothing
    and the delta [" the image"] is lost, also in the message that
    [handleSend] leaves in the conversation. *)
Theorem C1_scenario_loses_thought_delta :
  accumulate [] scenario
  = [ thoughtPart (ThoughtString (lit "**Plan**: crop"));
      executableCodePart
        {| language := lit "python"; code := lit "crop(img)" |};
      codeExecutionResultPart {| outcome := lit "OK"; output := lit "done" |};
      textPart (lit "Here is the result.") ]
  /\ map renderPart (accumulate [] scenario)
     = [ Some (RThought (lit "**Plan**: crop"));
         Some (RExecutableCode (lit "python") (lit "crop(img)"));
         Some (RCodeExecutionResult (lit "OK") (lit "done"));
         Some (RText (lit "Here is the result.")) ]
  /\ nth_error (map renderPart (accumulate [] scenario)) 0
     <> Some (Some (RThought (lit "**Plan**: crop the image")))
  /\ (forall now ms tk st text image,
        messages
          (exec (handleSend now (Yields [chunkOf scenario] Completes)
                   text image)
             {| messages := ms; isLoading := false; ticks := tk; sent := st |})
        = ms ++ [newUserMessage (now tk) (now (1 + tk)) text image;
                 modelMessage (lit "model-" ++ numberToString (now (2 + tk)))
                   [ thoughtPart (ThoughtString (lit "**Plan**: crop"));
                     executableCodePart
                       {| language := lit "python"; code := lit "crop(img)" |};
                     codeExecutionResultPart
                       {| outcome := lit "OK"; output := lit "done" |};
                     textPart (lit "Here is the result.") ]
                   (now (3 + tk))]).
Proof.
  repeat split; [discriminate|].
  intros now ms tk st text image.
  exact (handleSend_completes now ms tk st text image
           [chunkOf scenario] eq_refl).
Qed.

(** The loss is general: a thought fragment that carries its delta as a
    string, arriving after a block with a truthy thought, leaves the
    accumulated parts as they were. *)
Lemma mergePart_string_thought_dropped (acc : list Part) (l : Part)
  (c : N) (s : jsstring) :
  lastOf acc = Some l ->
  truthyThought (thought l) = true ->
  mergePart acc (thoughtPart (ThoughtString (c :: s))) = acc.
Proof.
  intros Hlast Ht. unfold mergePart. rewrite Hlast. simpl.
  unfold sameType. simpl. now rewrite Ht.
Qed.

(** When the deltas of the thought travel in [text] under
    [thought: true], the scenario accumulates to the four blocks that
    the specification lists. *)
Lemma scenarioFlagged_accumulates :
  map renderPart (accumulate [] scenarioFlagged)
  = [ Some (RThought (lit "**Plan**: crop the image"));
      Some (RExecutableCode (lit "python") (lit "crop(img)"));
      Some (RCodeExecutionResult (lit "OK") (lit "done"));
      Some (RText (lit "Here is the result."))].
Proof. reflexivity. Qed.

(* ================================================================== *)
(** * Further properties of the accumulation loop *)
(* ================================================================== *)

Lemma orEmpty_Some (s : jsstring) : orEmpty (Some s) = s.
Proof. now destruct s. Qed.

Lemma orEmpty_falsy (o : option jsstring) :
  truthyString o = false -> orEmpty o = [].
Proof. destruct o as [[|c s]|]; [reflexivity|discriminate|reflexivity]. Qed.

(** The three things that one step of the loop can do. *)
Lemma mergePart_shape (acc : list Part) (p : Part) :
  mergePart acc p = acc ++ [p]
  \/ (exists base l c s,
        acc = base ++ [l] /\ sameType p l = true /\ text p = Some (c :: s)
        /\ mergePart acc p
           = base ++ [setText l (orEmpty (text l) ++ c :: s)])
  \/ (mergePart acc p = acc /\ truthyString (text p) = false).
Proof.
  unfold mergePart. destruct (lastOf acc) as [l|] eqn:Hlast; [|now left].
  simpl. destruct (sameType p l) eqn:Hsame; [|now left].
  destruct (lastOf_Some_snoc _ Hlast) as [base ->].
  destruct (text p) as [[|c s]|] eqn:Ht.
  - right. right. now split.
  - right. left. exists base, l, c, s. now rewrite removelast_last.
  - right. right. now split.
Qed.

Lemma mergePart_length (acc : list Part) (p : Part) :
  List.length acc <= List.length (mergePart acc p) <= S (List.length acc).
Proof.
  destruct (mergePart_shape acc p)
    as [-> | [(base & l & c & s & -> & _ & _ & ->) | [-> _]]];
    rewrite ?length_app; simpl; lia.
Qed.

Lemma mergePart_nth_before (acc : list Part) (p : Part) (i : nat) :
  S i < List.length acc ->
  nth_error (mergePart acc p) i = nth_error acc i.
Proof.
  intros Hi.
  destruct (mergePart_shape acc p)
    as [-> | [(base & l & c & s & -> & _ & _ & ->) | [-> _]]].
  - apply nth_error_app1. lia.
  - rewrite length_app in Hi. simpl in Hi.
    rewrite !nth_error_app1 by lia. reflexivity.
  - reflexivity.
Qed.

Lemma mergePart_kind (acc : list Part) (p : Part) (i : nat) :
  i < List.length acc ->
  option_map classify (nth_error (mergePart acc p) i)
  = option_map classify (nth_error acc i).
Proof.
  intros Hi.
  destruct (mergePart_shape acc p)
    as [-> | [(base & l & c & s & -> & Hsame & Ht & ->) | [-> _]]].
  - now rewrite nth_error_app1.
  - rewrite length_app in Hi. simpl in Hi.
    destruct (Nat.eq_dec i (List.length base)) as [->|Hne].
    + rewrite !nth_error_app2, Nat.sub_diag by lia. simpl.
      now rewrite (setText_classify l p Hsame Ht).
    + rewrite !nth_error_app1 by lia. reflexivity.
  - reflexivity.
Qed.

Lemma accumulate_length (ps acc : list Part) :
  List.length acc <= List.length (accumulate acc ps)
  <= List.length acc + List.length ps.
Proof.
  revert acc. induction ps as [|p ps IH]; intros acc;
    unfold accumulate in *; simpl; [lia|].
  pose proof (mergePart_length acc p). specialize (IH (mergePart acc p)).
  lia.
Qed.

(** X1. Accumulation only ever appends: it never shortens the list, it
    adds at most one block per incoming part, every block but the last
    of the list it starts from stays as it is, and that last block
    keeps its kind. *)
Theorem X1_accumulate_append_only (acc ps : list Part) :
  List.length acc <= List.length (accumulate acc ps)
  <= List.length acc + List.length ps
  /\ (forall i, S i < List.length acc ->
        nth_error (accumulate acc ps) i = nth_error acc i)
  /\ (forall i, i < List.length acc ->
        option_map classify (nth_error (accumulate acc ps) i)
        = option_map classify (nth_error acc i)).
Proof.
  split; [apply accumulate_length|].
  revert acc. induction ps as [|p ps IH]; intros acc; [now split|].
  destruct (IH (mergePart acc p)) as [IH1 IH2].
  pose proof (mergePart_length acc p) as Hlen.
  split; intros i Hi; simpl.
  - unfold accumulate in IH1. rewrite IH1 by lia.
    now apply mergePart_nth_before.
  - unfold accumulate in IH2. rewrite IH2 by lia.
    now apply mergePart_kind.
Qed.

Lemma X1_accumulate_append_only_witness :
  nth_error (accumulate [textPart (lit "a"); flaggedThoughtPart (lit "b")]
               [flaggedThoughtPart (lit "c"); textPart (lit "d")]) 0
  = Some (textPart (lit "a"))
  /\ option_map classify
       (nth_error (accumulate [textPart (lit "a"); flaggedThoughtPart (lit "b")]
                     [flaggedThoughtPart (lit "c"); textPart (lit "d")]) 1)
     = Some Thought.
Proof.
  destruct (X1_accumulate_append_only
              [textPart (lit "a"); flaggedThoughtPart (lit "b")]
              [flaggedThoughtPart (lit "c"); textPart (lit "d")])
    as [_ [Hsame Hkind]].
  split.
  - apply (Hsame 0). simpl. lia.
  - apply (Hkind 1). simpl. lia.
Defined.

Lemma allText_app (a b : list Part) : allText (a ++ b) = allText a ++ allText b.
Proof. unfold allText. now rewrite map_app, concat_app. Qed.

Lemma mergePart_allText (acc : list Part) (p : Part) :
  allText (mergePart acc p) = allText acc ++ orEmpty (text p).
Proof.
  destruct (mergePart_shape acc p)
    as [-> | [(base & l & c & s & -> & _ & Ht & ->) | [-> Ht]]].
  - rewrite allText_app. unfold allText. simpl. now rewrite app_nil_r.
  - rewrite !allText_app, Ht. unfold allText.
    cbn [map List.concat setText text].
    rewrite !app_nil_r, !orEmpty_Some, <- !app_assoc. reflexivity.
  - now rewrite (orEmpty_falsy _ Ht), app_nil_r.
Qed.

(** X2. No text is lost or reordered by the accumulator: the texts of
    the accumulated blocks, read in order, are the texts of the blocks
    it started from followed by the texts of the incoming parts. *)
Theorem X2_accumulate_conserves_text (ps acc : list Part) :
  allText (accumulate acc ps) = allText acc ++ allText ps.
Proof.
  revert acc. induction ps as [|p ps IH]; intros acc.
  - change (accumulate acc []) with acc.
    change (allText []) with (@nil N). now rewrite app_nil_r.
  - change (accumulate acc (p :: ps)) with (accumulate (mergePart acc p) ps).
    rewrite IH, mergePart_allText, <- app_assoc. reflexivity.
Qed.

Lemma accumulate_text_run (ss : list jsstring) (t : jsstring) :
  t <> [] -> Forall (fun s => s <> []) ss ->
  accumulate [textPart t] (map textPart ss)
  = [textPart (t ++ List.concat ss)].
Proof.
  revert t. induction ss as [|s ss IH]; intros t Ht Hss.
  - simpl. now rewrite app_nil_r.
  - inversion Hss as [|? ? Hs Hss']; subst.
    destruct t as [|c t]; [congruence|].
    destruct s as [|c' s]; [congruence|].
    change (accumulate [textPart (c :: t)] (map textPart ((c' :: s) :: ss)))
      with (accumulate [textPart ((c :: t) ++ c' :: s)] (map textPart ss)).
    rewrite IH by (assumption || discriminate).
    cbn [List.concat]. now rewrite <- app_assoc.
Qed.

(** X3. A stream of text fragments, none of them empty, accumulates to
    a single text block that holds their concatenation, however many
    fragments there are. *)
Theorem X3_text_stream (s : jsstring) (ss : list jsstring) :
  Forall (fun x => x <> []) (s :: ss) ->
  accumulate [] (map textPart (s :: ss))
  = [textPart (List.concat (s :: ss))]
  /\ map renderPart (accumulate [] (map textPart (s :: ss)))
     = [Some (RText (List.concat (s :: ss)))].
Proof.
  intros H. inversion H as [|? ? Hs Hss]; subst.
  assert (E : accumulate [] (map textPart (s :: ss))
              = [textPart (List.concat (s :: ss))])
    by exact (accumulate_text_run Hs Hss).
  split; [exact E|]. rewrite E. simpl.
  destruct s as [|c s]; [congruence|]. reflexivity.
Qed.

Lemma X3_text_stream_witness :
  accumulate [] (map textPart [lit "Hel"; lit "lo "; lit "wor"; lit "ld"])
  = [textPart (lit "Hello world")].
Proof.
  apply (@X3_text_stream (lit "Hel") [lit "lo "; lit "wor"; lit "ld"]).
  repeat constructor; discriminate.
Defined.

Lemma accumulate_thought_run (ss : list jsstring) (t : jsstring) :
  accumulate [flaggedThoughtPart t] (map flaggedThoughtPart ss)
  = [flaggedThoughtPart (t ++ List.concat ss)].
Proof.
  revert t. induction ss as [|s ss IH]; intros t.
  - simpl. now rewrite app_nil_r.
  - cbn [List.concat]. destruct s as [|c s].
    + change (accumulate [flaggedThoughtPart t]
                (map flaggedThoughtPart ([] :: ss)))
        with (accumulate [flaggedThoughtPart t] (map flaggedThoughtPart ss)).
      now rewrite IH.
    + assert (E : mergePart [flaggedThoughtPart t] (flaggedThoughtPart (c :: s))
                  = [flaggedThoughtPart (t ++ c :: s)])
        by (destruct t; reflexivity).
      change (accumulate [flaggedThoughtPart t]
                (map flaggedThoughtPart ((c :: s) :: ss)))
        with (accumulate
                (mergePart [flaggedThoughtPart t] (flaggedThoughtPart (c :: s)))
                (map flaggedThoughtPart ss)).
      rewrite E, IH, <- app_assoc. reflexivity.
Qed.

(** X4. A stream of fragments flagged [thought: true], each carrying
    its delta in [text], accumulates to a single thought block whose
    text is the concatenation of the deltas; empty deltas are absorbed.
    The panel shows that text, trimmed. *)
Theorem X4_flagged_thought_stream (s : jsstring) (ss : list jsstring) :
  accumulate [] (map flaggedThoughtPart (s :: ss))
  = [flaggedThoughtPart (List.concat (s :: ss))]
  /\ map renderPart (accumulate [] (map flaggedThoughtPart (s :: ss)))
     = [Some (RThought (trim (List.concat (s :: ss))))].
Proof.
  assert (E : accumulate [] (map flaggedThoughtPart (s :: ss))
              = [flaggedThoughtPart (List.concat (s :: ss))])
    by exact (accumulate_thought_run ss s).
  split; [exact E|]. rewrite E.
  unfold renderPart, isThought, thoughtContent.
  cbn [map flaggedThoughtPart thought text].
  now rewrite orEmpty_Some.
Qed.

(** X5. Parts that carry neither a non-empty text nor a truthy thought
    (code, execution results, images, empty text) are never merged:
    a run of them is appended to the list part by part, unchanged. *)
Theorem X5_unmergeable_parts_appended (ps acc : list Part) :
  Forall (fun p => truthyString (text p) = false
                   /\ truthyThought (thought p) = false) ps ->
  accumulate acc ps = acc ++ ps.
Proof.
  revert acc. induction ps as [|p ps IH]; intros acc H.
  - simpl. now rewrite app_nil_r.
  - inversion H as [|? ? [Ht Hth] Hps]; subst.
    assert (E : mergePart acc p = acc ++ [p]).
    { unfold mergePart. destruct (lastOf acc) as [l|]; [|reflexivity].
      simpl. unfold sameType. rewrite Ht, Hth. reflexivity. }
    change (accumulate acc (p :: ps)) with (accumulate (mergePart acc p) ps).
    rewrite E, IH by assumption.
    now rewrite <- app_assoc.
Qed.

Lemma X5_unmergeable_parts_appended_witness :
  let run := [executableCodePart {| language := lit "PYTHON"; code := lit "a" |};
              executableCodePart {| language := lit "PYTHON"; code := lit "b" |};
              inlineDataPart {| mimeType := lit "image/png"; data := lit "QQ" |}] in
  accumulate [textPart (lit "x")] run = [textPart (lit "x")] ++ run.
Proof.
  intro run. apply X5_unmergeable_parts_appended.
  repeat constructor.
Defined.

(** X6. A thought and an answer never merge: when exactly one of the
    last block and the incoming part has a truthy thought, the part is
    appended as a new block. *)
Theorem X6_thought_boundary (acc : list Part) (l p : Part) :
  lastOf acc = Some l ->
  truthyThought (thought l) <> truthyThought (thought p) ->
  mergePart acc p = acc ++ [p].
Proof.
  intros Hlast Hne. unfold mergePart. rewrite Hlast. simpl.
  unfold sameType.
  destruct (truthyThought (thought l)), (truthyThought (thought p));
    try congruence; simpl; now rewrite ?andb_false_r.
Qed.

Lemma X6_thought_boundary_witness :
  mergePart [flaggedThoughtPart (lit "step 1")] (textPart (lit "answer"))
  = [flaggedThoughtPart (lit "step 1")] ++ [textPart (lit "answer")].
Proof.
  apply (@X6_thought_boundary [flaggedThoughtPart (lit "step 1")]
           (flaggedThoughtPart (lit "step 1")) (textPart (lit "answer"))).
  - reflexivity.
  - discriminate.
Defined.

(* ================================================================== *)
(** * Further properties of a turn *)
(* ================================================================== *)

Lemma accumulate_app (ps qs acc : list Part) :
  accumulate acc (ps ++ qs) = accumulate (accumulate acc ps) qs.
Proof. apply fold_left_app. Qed.

Lemma accumulateChunks_flat (chunks : list GenAI.GenerateContentResponse)
  (acc : list Part) :
  accumulateChunks acc chunks = accumulate acc (flatParts chunks).
Proof.
  revert acc. induction chunks as [|c cs IH]; intros acc; [reflexivity|].
  change (accumulateChunks acc (c :: cs))
    with (accumulateChunks
            match incomingPartsOf c with
            | Some ps => accumulate acc ps
            | None => acc
            end cs).
  change (flatParts (c :: cs))
    with (match incomingPartsOf c with
          | Some ps => ps
          | None => []
          end ++ flatParts cs).
  rewrite IH, accumulate_app. now destruct (incomingPartsOf c).
Qed.

Lemma forAwait_fst (now : nat -> N) (modelMessageId : jsstring)
  (chunks : list GenAI.GenerateContentResponse) :
  forall (acc : list Part) (w : World),
    fst (forAwait now modelMessageId chunks acc w)
    = accumulateChunks acc chunks.
Proof.
  induction chunks as [|c cs IH]; intros acc w; [reflexivity|].
  cbn [forAwait]. unfold bind.
  destruct (processChunk now modelMessageId acc c w) as [acc' w'] eqn:E.
  rewrite IH. unfold processChunk in E.
  unfold accumulateChunks. cbn [fold_left].
  destruct (incomingPartsOf c) as [ps|].
  - unfold bind, ret in E.
    destruct (publish now modelMessageId (accumulate acc ps) w).
    now injection E as <- _.
  - unfold ret in E. now injection E as <- _.
Qed.

(** The state that a whole turn leaves, field by field. *)
Lemma handleSend_exec (now : nat -> N) (reply : Transport)
  (text : jsstring) (image : option jsstring) (w : World) :
  isLoading w = false ->
  exec (handleSend now reply text image) w
  = {| messages := messages w ++ turnMessages now (ticks w) reply text image;
       isLoading := false;
       ticks := turnTicks (ticks w) reply;
       sent := sent w ++ [requestOf (messages w) text image] |}.
Proof.
  destruct w as [ms ld tk st]. cbn [isLoading messages ticks sent].
  intros ->.
  unfold exec, handleSend, tryBlock, catchBlock, sendMessageStream,
    transportSend, bind, getIsLoading, getMessages, dateNow,
    setMessages, setIsLoading, ret.
  cbn [isLoading messages ticks sent fst snd].
  destruct reply as [|chunks fin].
  - cbn. now rewrite <- app_assoc.
  - cbn [isLoading messages ticks sent fst snd].
    rewrite forAwait_fresh
      by (rewrite lastOf_snoc; apply user_id_not_model).
    unfold turnMessages, streamedMessages, turnTicks, catchTick.
    destruct (anyParts chunks), fin; cbn;
      rewrite <- ?app_assoc; reflexivity.
Qed.

(** X7. Chunk boundaries are invisible: the parts that the loop has
    accumulated after a run of chunks are those of the single list of
    all their parts, and a turn that completes after at least one chunk
    with parts leaves the user's message and one model message that
    holds them. *)
Theorem X7_chunk_boundaries (now : nat -> N)
  (chunks : list GenAI.GenerateContentResponse) :
  (forall modelMessageId acc w,
      fst (forAwait now modelMessageId chunks acc w)
      = accumulate acc (flatParts chunks))
  /\ (forall ms tk st text image,
        anyParts chunks = true ->
        messages
          (exec (handleSend now (Yields chunks Completes) text image)
             {| messages := ms; isLoading := false; ticks := tk; sent := st |})
        = ms ++ [newUserMessage (now tk) (now (1 + tk)) text image;
                 modelMessage (lit "model-" ++ numberToString (now (2 + tk)))
                   (accumulate [] (flatParts chunks)) (now (3 + tk))]).
Proof.
  split.
  - intros mid acc w. now rewrite forAwait_fst, accumulateChunks_flat.
  - intros ms tk st text image Hany.
    rewrite handleSend_exec by reflexivity.
    unfold turnMessages, streamedMessages. cbn [messages ticks].
    now rewrite Hany, accumulateChunks_flat.
Qed.

Lemma X7_chunk_boundaries_witness :
  map parts
    (messages
       (exec (handleSend sampleClock
                (Yields [chunkOf [textPart (lit "a")];
                         chunkOf [textPart (lit "b"); textPart (lit "c")]]
                   Completes) (lit "q") None)
          {| messages := []; isLoading := false; ticks := 0; sent := [] |}))
  = [[textPart (lit "q")]; [textPart (lit "abc")]].
Proof.
  rewrite (proj2 (X7_chunk_boundaries sampleClock
                    [chunkOf [textPart (lit "a")];
                     chunkOf [textPart (lit "b"); textPart (lit "c")]])
             [] 0 [] (lit "q") None eq_refl).
  reflexivity.
Defined.

(** X8. Whatever the transport does, a call of [handleSend] keeps the
    conversation it finds as a prefix of the one it leaves, adds at most
    three messages and hands at most one request to the transport; it
    leaves the loading flag as it found it, and when the component is
    loading it changes nothing at all. *)
Theorem X8_handleSend_frame (now : nat -> N) (reply : Transport)
  (text : jsstring) (image : option jsstring) (w : World) :
  let w' := exec (handleSend now reply text image) w in
  (exists added, messages w' = messages w ++ added
                 /\ List.length added <= 3)
  /\ (exists requests, sent w' = sent w ++ requests
                       /\ List.length requests <= 1)
  /\ isLoading w' = isLoading w
  /\ (isLoading w = true -> w' = w).
Proof.
  intros w'. destruct (isLoading w) eqn:Hld.
  - assert (E : w' = w).
    { unfold w', exec, handleSend, bind, getIsLoading, ret.
      cbn [fst snd]. now rewrite Hld. }
    rewrite E. repeat split; try assumption.
    + exists []. split; [now rewrite app_nil_r | simpl; lia].
    + exists []. split; [now rewrite app_nil_r | simpl; lia].
  - unfold w'. rewrite handleSend_exec by assumption.
    cbn [messages sent isLoading]. repeat split.
    + eexists. split; [reflexivity|].
      unfold turnMessages, streamedMessages.
      destruct reply as [|chunks [|]]; [|destruct (anyParts chunks)..];
        simpl; lia.
    + eexists. split; [reflexivity|]. simpl. lia.
    + discriminate.
Qed.

Lemma X8_handleSend_frame_witness :
  let w := {| messages := messages sampleWorld; isLoading := true;
              ticks := 4; sent := [] |} in
  exec (handleSend sampleClock sampleReply (lit "again") None) w = w.
Proof.
  intro w.
  exact (proj2 (proj2 (proj2
           (X8_handleSend_frame sampleClock sampleReply (lit "again") None w)))
           eq_refl).
Defined.

(** X9. An idle component hands exactly one request to the transport:
    its history is the conversation as it was before the turn, message
    by message, without the new user message, and its parts are the
    text followed by the image part if there is one.  The user's
    message in the conversation holds the same parts in the opposite
    order. *)
Theorem X9_request_contents (now : nat -> N) (reply : Transport)
  (text : jsstring) (image : option jsstring) (w : World) :
  isLoading w = false ->
  let w' := exec (handleSend now reply text image) w in
  sent w' = sent w ++ [requestOf (messages w) text image]
  /\ map GenAI.parts (history (requestOf (messages w) text image))
     = map (fun m => Some (parts m)) (messages w)
  /\ map GenAI.role (history (requestOf (messages w) text image))
     = map (fun m => Some (role m)) (messages w)
  /\ nth_error (messages w') (List.length (messages w))
     = Some (newUserMessage (now (ticks w)) (now (1 + ticks w)) text image)
  /\ parts (newUserMessage (now (ticks w)) (now (1 + ticks w)) text image)
     = rev (message (requestOf (messages w) text image)).
Proof.
  intros Hidle w'. unfold w'. rewrite handleSend_exec by assumption.
  cbn [sent messages]. repeat split.
  - unfold requestOf. cbn [history]. now rewrite map_map.
  - unfold requestOf. cbn [history]. now rewrite map_map.
  - unfold turnMessages. cbn [app].
    now rewrite nth_error_app2, Nat.sub_diag by lia.
  - unfold newUserMessage, requestOf. cbn [parts message].
    now destruct (imagePartOf image).
Qed.

Lemma X9_request_contents_witness :
  sent (exec (handleSend sampleClock sampleReply (lit "again") None)
          sampleWorld)
  = [requestOf (messages sampleWorld) (lit "again") None].
Proof.
  exact (proj1 (@X9_request_contents sampleClock sampleReply (lit "again")
                  None sampleWorld eq_refl)).
Defined.

(** X10. The history of the next request is the whole conversation
    that the turn before it left, so it carries the partial model
    message and, after a failed turn, ends with the text of the apology
    as a model turn. *)
Theorem X10_history_carries_failures (now : nat -> N)
  (reply1 reply2 : Transport) (text1 text2 : jsstring)
  (image1 image2 : option jsstring) (w : World) :
  isLoading w = false ->
  let w1 := exec (handleSend now reply1 text1 image1) w in
  let w2 := exec (handleSend now reply2 text2 image2) w1 in
  sent w2
  = sent w ++ [requestOf (messages w) text1 image1;
               requestOf (messages w1) text2 image2]
  /\ history (requestOf (messages w1) text2 image2)
     = map toContent (messages w)
         ++ map toContent (turnMessages now (ticks w) reply1 text1 image1)
  /\ (fails reply1 = true ->
      lastOf (history (requestOf (messages w1) text2 image2))
      = Some {| GenAI.parts :=
                  Some [textPart
                          (lit "I encountered an error. Please try again.")];
                GenAI.role := Some model |}).
Proof.
  intros Hidle w1 w2.
  assert (E1 : w1 = {| messages := messages w
                         ++ turnMessages now (ticks w) reply1 text1 image1;
                       isLoading := false;
                       ticks := turnTicks (ticks w) reply1;
                       sent := sent w ++ [requestOf (messages w) text1 image1] |})
    by (apply handleSend_exec; assumption).
  assert (E2 : sent w2 = sent w1 ++ [requestOf (messages w1) text2 image2]).
  { unfold w2. rewrite handleSend_exec by (rewrite E1; reflexivity).
    reflexivity. }
  split; [|split].
  - rewrite E2. rewrite E1 at 1. cbn [sent]. now rewrite <- app_assoc.
  - rewrite E1. cbn [messages requestOf history]. apply map_app.
  - intros Hf. rewrite E1. cbn [messages requestOf history].
    assert (Hend : exists front a b,
               turnMessages now (ticks w) reply1 text1 image1
               = front ++ [errorMessage a b]).
    { unfold turnMessages.
      destruct reply1 as [|chunks [|]]; try discriminate.
      - exists [newUserMessage (now (ticks w)) (now (1 + ticks w)) text1 image1].
        eexists. eexists. reflexivity.
      - exists ([newUserMessage (now (ticks w)) (now (1 + ticks w)) text1 image1]
                ++ streamedMessages now (ticks w) chunks).
        eexists. eexists. now rewrite <- app_assoc. }
    destruct Hend as (front & a & b & ->).
    rewrite app_assoc, map_app. cbn [map]. now rewrite lastOf_snoc.
Qed.

Lemma X10_history_carries_failures_witness :
  lastOf
    (history
       (requestOf
          (messages (exec (handleSend sampleClock sampleReply (lit "again") None)
                       sampleWorld))
          (lit "and now?") None))
  = Some {| GenAI.parts :=
              Some [textPart (lit "I encountered an error. Please try again.")];
            GenAI.role := Some model |}.
Proof.
  exact (proj2 (proj2
           (@X10_history_carries_failures sampleClock sampleReply Rejects
              (lit "again") (lit "and now?") None None sampleWorld eq_refl))
           eq_refl).
Defined.

(** X11. A stream that completes without a single [parts] array leaves
    the user's message unanswered: no model message is added.  A
    stream whose [parts] arrays are all empty does add a model message,
    one that has no parts. *)
Theorem X11_stream_without_parts (now : nat -> N)
  (chunks : list GenAI.GenerateContentResponse)
  (text : jsstring) (image : option jsstring) (w : World) :
  isLoading w = false ->
  let w' := exec (handleSend now (Yields chunks Completes) text image) w in
  (anyParts chunks = false ->
   messages w'
   = messages w
       ++ [newUserMessage (now (ticks w)) (now (1 + ticks w)) text image])
  /\ (anyParts chunks = true -> flatParts chunks = [] ->
      messages w'
      = messages w
          ++ [newUserMessage (now (ticks w)) (now (1 + ticks w)) text image;
              modelMessage (lit "model-" ++ numberToString (now (2 + ticks w)))
                [] (now (3 + ticks w))]).
Proof.
  intros Hidle w'. unfold w'. rewrite handleSend_exec by assumption.
  cbn [messages]. unfold turnMessages, streamedMessages.
  split.
  - intros ->. reflexivity.
  - intros -> Hflat. now rewrite accumulateChunks_flat, Hflat.
Qed.

Lemma X11_stream_without_parts_witness :
  let silent := {| GenAI.candidates := Some [] |} in
  List.length
    (messages (exec (handleSend sampleClock (Yields [silent; silent] Completes)
                       (lit "again") None) sampleWorld))
  = 3
  /\ map parts
       (messages (exec (handleSend sampleClock (Yields [chunkOf []] Completes)
                          (lit "again") None)
                    {| messages := []; isLoading := false; ticks := 0;
                       sent := [] |}))
     = [[textPart (lit "again")]; []].
Proof.
  intro silent. split.
  - rewrite (proj1 (@X11_stream_without_parts sampleClock [silent; silent]
                      (lit "again") None sampleWorld eq_refl) eq_refl).
    reflexivity.
  - rewrite (proj2 (@X11_stream_without_parts sampleClock [chunkOf []]
                      (lit "again") None
                      {| messages := []; isLoading := false; ticks := 0;
                         sent := [] |} eq_refl) eq_refl eq_refl).
    reflexivity.
Defined.

Lemma lit_inj (a b : string) : lit a = lit b -> a = b.
Proof.
  revert b. induction a as [|x a IH]; intros [|y b] H; try discriminate H.
  - reflexivity.
  - unfold lit in H. simpl in H. injection H as Hxy Hab.
    f_equal.
    + now rewrite <- (ascii_N_embedding x), Hxy, ascii_N_embedding.
    + now apply IH.
Qed.

Lemma N_to_uint_nonnil (n : N) : N.to_uint n <> Decimal.Nil.
Proof.
  destruct n; [discriminate|]. apply DecimalPos.Unsigned.to_uint_nonnil.
Qed.

(** The decimal digits tell the number. *)
Lemma numberToString_inj (a b : N) :
  numberToString a = numberToString b -> a = b.
Proof.
  intros H. apply lit_inj in H.
  apply (f_equal NilZero.uint_of_string) in H.
  rewrite !NilZero.usu in H by apply N_to_uint_nonnil.
  injection H as H.
  now rewrite <- (DecimalN.Unsigned.of_to a), H, DecimalN.Unsigned.of_to.
Qed.

Lemma stamped_ids_differ (p p' : jsstring) (a b : N) :
  (p = lit "user-" \/ p = lit "model-" \/ p = lit "error-") ->
  (p' = lit "user-" \/ p' = lit "model-" \/ p' = lit "error-") ->
  p ++ numberToString a = p' ++ numberToString b ->
  p = p' /\ a = b.
Proof.
  intros [ -> | [ -> | -> ] ] [ -> | [ -> | -> ] ] H; try discriminate H;
    (split; [reflexivity|]);
    apply app_inv_head in H; now apply numberToString_inj.
Qed.

(** The ids that a turn stamps: pairwise different, each behind one of
    the three prefixes, each from a reading of the clock made during
    the turn. *)
Lemma turnMessages_ids (now : nat -> N) (t0 : nat) (reply : Transport)
  (text : jsstring) (image : option jsstring) :
  NoDup (map id (turnMessages now t0 reply text image))
  /\ Forall (fun i =>
               exists prefix k,
                 i = prefix ++ numberToString (now k)
                 /\ t0 <= k < turnTicks t0 reply
                 /\ (prefix = lit "user-" \/ prefix = lit "model-"
                     \/ prefix = lit "error-"))
       (map id (turnMessages now t0 reply text image)).
Proof.
  assert (Hu : forall hi, t0 < hi ->
             exists prefix k,
               lit "user-" ++ numberToString (now t0)
               = prefix ++ numberToString (now k)
               /\ t0 <= k < hi
               /\ (prefix = lit "user-" \/ prefix = lit "model-"
                   \/ prefix = lit "error-")).
  { intros hi H. exists (lit "user-"), t0. repeat split; auto; lia. }
  assert (Hm : forall hi, 2 + t0 < hi ->
             exists prefix k,
               lit "model-" ++ numberToString (now (2 + t0))
               = prefix ++ numberToString (now k)
               /\ t0 <= k < hi
               /\ (prefix = lit "user-" \/ prefix = lit "model-"
                   \/ prefix = lit "error-")).
  { intros hi H. exists (lit "model-"), (2 + t0). repeat split; auto; lia. }
  assert (He : forall c hi, t0 <= c < hi ->
             exists prefix k,
               lit "error-" ++ numberToString (now c)
               = prefix ++ numberToString (now k)
               /\ t0 <= k < hi
               /\ (prefix = lit "user-" \/ prefix = lit "model-"
                   \/ prefix = lit "error-")).
  { intros c hi H. exists (lit "error-"), c. repeat split; auto; lia. }
  unfold turnMessages, streamedMessages, turnTicks, catchTick.
  destruct reply as [|chunks [|]]; [|destruct (anyParts chunks)..];
    cbn [app map id newUserMessage modelMessage errorMessage];
    (split;
     [ repeat (constructor;
               [ cbn [In]; intros H;
                 repeat (destruct H as [H|H]; try discriminate H);
                 try contradiction | ]);
       constructor
     | repeat (constructor; [first [apply Hu | apply Hm | apply He]; lia|]);
       constructor ]).
Qed.

(** X12. The ids of the conversation stay pairwise different from one
    turn to the next, provided that the clock, from the turn on, reads
    values that it has not read before: each turn stamps its messages
    with readings of its own, behind the prefixes [user-], [model-]
    and [error-], which keep the ids of one turn apart even when its
    readings coincide. *)
Theorem X12_ids_stay_distinct (now : nat -> N) (reply : Transport)
  (text : jsstring) (image : option jsstring) (w : World) :
  (forall k k', k < ticks w -> ticks w <= k' -> now k <> now k') ->
  isLoading w = false ->
  freshIds now w ->
  freshIds now (exec (handleSend now reply text image) w).
Proof.
  intros Hclock Hidle [Hnodup Hstamped].
  rewrite handleSend_exec by assumption.
  destruct (turnMessages_ids now (ticks w) reply text image) as [Hn Hs].
  assert (Hgrow : ticks w <= turnTicks (ticks w) reply).
  { unfold turnTicks, catchTick.
    destruct reply as [|chunks [|]]; [|destruct (anyParts chunks)..]; lia. }
  unfold freshIds. cbn [messages ticks]. rewrite map_app. split.
  - apply NoDup_app; try assumption.
    intros i Hold Hnew.
    rewrite Forall_forall in Hstamped, Hs.
    destruct (Hstamped i Hold) as (p & k & -> & Hk & Hp).
    destruct (Hs _ Hnew) as (p' & k' & E & Hk' & Hp').
    destruct (@stamped_ids_differ _ _ _ _ Hp Hp' E) as [_ Hnow].
    exact (Hclock k k' Hk (proj1 Hk') Hnow).
  - apply Forall_app. split.
    + eapply Forall_impl; [|exact Hstamped].
      intros i (p & k & -> & Hk & Hp). exists p, k. repeat split; auto; lia.
    + eapply Forall_impl; [|exact Hs].
      intros i (p & k & -> & Hk & Hp). exists p, k. repeat split; auto; lia.
Qed.

Lemma X12_ids_stay_distinct_witness :
  NoDup
    (map id
       (messages (exec (handleSend sampleClock sampleReply (lit "again") None)
                    sampleWorld))).
Proof.
  apply (@X12_ids_stay_distinct sampleClock sampleReply (lit "again") None
           sampleWorld).
  - intros k k' Hk Hk' H. apply Nat2N.inj in H. simpl in Hk, Hk'. lia.
  - reflexivity.
  - split.
    + repeat constructor; simpl; intuition discriminate.
    + repeat constructor.
      * exists (lit "user-"), 0. repeat split; auto. simpl. lia.
      * exists (lit "model-"), 1. repeat split; auto. simpl. lia.
Defined.

(** X13. An image that is not a data URL never leaves the component:
    when the string does not start with [data:], as the URLs of the
    built-in examples do not, the request carries the prompt alone and
    the user's message shows the prompt alone. *)
Theorem X13_example_image_omitted (now : nat -> N) (reply : Transport)
  (example : ExamplePrompt) (w : World) :
  isLoading w = false ->
  stripPrefix (lit "data:") (image example) = None ->
  let w' := exec (handleExampleClick now reply example) w in
  sent w'
  = sent w ++ [{| history := map toContent (messages w);
                  message := [textPart (prompt example)] |}]
  /\ nth_error (messages w') (List.length (messages w))
     = Some {| id := lit "user-" ++ numberToString (now (ticks w));
               role := user;
               parts := [textPart (prompt example)];
               timestamp := now (1 + ticks w) |}.
Proof.
  intros Hidle Hurl w'. unfold w', handleExampleClick.
  rewrite handleSend_exec by assumption.
  assert (Himg : imagePartOf (Some (image example)) = None).
  { unfold imagePartOf, dataUrlMatch.
    destruct (image example) as [|c s]; [reflexivity|]. now rewrite Hurl. }
  cbn [sent messages]. unfold requestOf, turnMessages, newUserMessage.
  rewrite Himg. split; [reflexivity|].
  cbn [app]. now rewrite nth_error_app2, Nat.sub_diag by lia.
Qed.

Lemma X13_example_image_omitted_witness :
  Forall (fun example =>
            sent (exec (handleExampleClick sampleClock sampleReply example)
                    sampleWorld)
            = [{| history := map toContent (messages sampleWorld);
                  message := [textPart (prompt example)] |}])
    DEFAULT_EXAMPLES.
Proof.
  assert (H : forall example,
             stripPrefix (lit "data:") (image example) = None ->
             sent (exec (handleExampleClick sampleClock sampleReply example)
                     sampleWorld)
             = [{| history := map toContent (messages sampleWorld);
                   message := [textPart (prompt example)] |}]).
  { intros example Hurl.
    exact (proj1 (@X13_example_image_omitted sampleClock sampleReply example
                    sampleWorld eq_refl Hurl)). }
  apply Forall_cons; [apply H; reflexivity|].
  apply Forall_cons; [apply H; reflexivity|].
  apply Forall_cons; [apply H; reflexivity|].
  apply Forall_nil.
Defined.

(* ================================================================== *)
(** * Further properties of attached images *)
(* ================================================================== *)

(** X14. For a string [data:<m>;base64,<d>] whose parts [m] and [d]
    are not empty and have no line terminator, and whose payload [d]
    has no comma, as no base64 payload has, the pattern captures
    exactly [m] and [d]. *)
Theorem X14_data_url_captures (image m d : jsstring) :
  isDataUrl image m d ->
  ~ In 44%N d ->
  dataUrlMatch image = Some (m, d).
Proof.
  intros Hurl Hcomma.
  destruct (dataUrlMatch_complete Hurl) as (m' & d' & Hmatch & Hlen).
  rewrite Hmatch. f_equal.
  destruct (dataUrlMatch_sound _ Hmatch) as (E' & _).
  destruct Hurl as (E & _). rewrite E in E'.
  apply app_inv_head in E'.
  apply app_eq_app in E'.
  destruct E' as [l [[Hm Hd] | [Hm Hd]]].
  - assert (l = []) as ->.
    { rewrite Hm, length_app in Hlen. destruct l; [reflexivity|simpl in Hlen; lia]. }
    rewrite app_nil_r in Hm. simpl in Hd. congruence.
  - destruct l as [|c l].
    + rewrite app_nil_r in Hm. simpl in Hd. congruence.
    + exfalso. apply Hcomma.
      assert (Hn : nth_error (lit ";base64," ++ d) (List.length (c :: l) + 7)
                   = Some 44%N).
      { rewrite Hd, nth_error_app2 by lia.
        replace (List.length (c :: l) + 7 - List.length (c :: l)) with 7 by lia.
        reflexivity. }
      rewrite nth_error_app2 in Hn by (simpl; lia).
      exact (nth_error_In _ _ Hn).
Qed.

Lemma X14_data_url_captures_witness :
  dataUrlMatch (lit "data:image/png;base64,iVBORw0KGgo=")
  = Some (lit "image/png", lit "iVBORw0KGgo=").
Proof.
  apply X14_data_url_captures.
  - repeat split; discriminate.
  - cbv. intuition discriminate.
Defined.

(** X15. The attached image survives the round trip: for every data
    URL the user's message gets an inline-image part, and unless the
    captured mime type is [application/octet-stream] that part is drawn
    with exactly the attached string as its source; a generic mime type
    is drawn as [image/jpeg] with the same payload. *)
Theorem X15_image_round_trip (image m d : jsstring) :
  isDataUrl image m d ->
  exists m' d' p,
    dataUrlMatch image = Some (m', d')
    /\ imagePartOf (Some image) = Some p
    /\ classify p = InlineImage
    /\ (m' <> lit "application/octet-stream" ->
        renderPart p = Some (RInlineImage image))
    /\ (m' = lit "application/octet-stream" ->
        renderPart p
        = Some (RInlineImage (lit "data:image/jpeg;base64," ++ d'))).
Proof.
  intros Hurl.
  destruct (dataUrlMatch_complete Hurl) as (m' & d' & Hmatch & _).
  destruct (dataUrlMatch_sound _ Hmatch) as (E & _).
  exists m', d',
    (inlineDataPart {| mimeType := normalizeMimeType m'; data := d' |}).
  split; [exact Hmatch|]. split; [|split; [reflexivity|split]].
  - unfold imagePartOf.
    destruct image as [|c s]; [discriminate E|]. now rewrite Hmatch.
  - intros Hne. unfold normalizeMimeType.
    apply strictEq_false in Hne. rewrite Hne.
    unfold renderPart. cbn. now rewrite E.
  - intros ->. reflexivity.
Qed.

Lemma X15_image_round_trip_witness :
  exists p,
    imagePartOf (Some (lit "data:image/png;base64,iVBORw0KGgo=")) = Some p
    /\ renderPart p
       = Some (RInlineImage (lit "data:image/png;base64,iVBORw0KGgo=")).
Proof.
  destruct (@X15_image_round_trip (lit "data:image/png;base64,iVBORw0KGgo=")
              (lit "image/png") (lit "iVBORw0KGgo="))
    as (m' & d' & p & Hmatch & Hpart & _ & Hdraw & _).
  - repeat split; discriminate.
  - exists p. split; [exact Hpart|]. apply Hdraw.
    injection Hmatch as <- _. discriminate.
Defined.

(** X20. An image string with a line break anywhere in it is never
    attached, whatever else it holds: the pattern fails on it, and the
    request carries the text alone. *)
Theorem X20_line_break_rejected (image : jsstring) (c : N) :
  In c image ->
  isLineTerminator c = true ->
  dataUrlMatch image = None /\ imagePartOf (Some image) = None.
Proof.
  intros Hin Hc.
  assert (Hnone : dataUrlMatch image = None).
  { destruct (dataUrlMatch image) as [[m d]|] eqn:E; [exfalso|reflexivity].
    destruct (dataUrlMatch_sound _ E) as (-> & _ & _ & Hm & Hd).
    assert (Hfree : forall s, noLineTerminator s = true -> ~ In c s).
    { intros s Hs Hcs. unfold noLineTerminator in Hs.
      rewrite forallb_forall in Hs. specialize (Hs c Hcs).
      rewrite Hc in Hs. discriminate. }
    rewrite !in_app_iff in Hin.
    destruct Hin as [H | [H | [H | H]]].
    - now apply (Hfree (lit "data:")).
    - now apply (Hfree m).
    - now apply (Hfree (lit ";base64,")).
    - now apply (Hfree d). }
  split; [exact Hnone|].
  unfold imagePartOf. destruct image as [|x s]; [reflexivity|].
  now rewrite Hnone.
Qed.

Lemma X20_line_break_rejected_witness :
  imagePartOf (Some (lit "data:image/png;base64,iVBO" ++ [10%N] ++ lit "Rw0K"))
  = None.
Proof.
  apply (proj2 (@X20_line_break_rejected
                  (lit "data:image/png;base64,iVBO" ++ [10%N] ++ lit "Rw0K")
                  10%N
                  ltac:(apply in_or_app; right; now left) eq_refl)).
Defined.

(* ================================================================== *)
(** * Further properties of the thought panel *)
(* ================================================================== *)

Lemma boldScan_skip (a rest : jsstring) :
  boldScan (List.length a) (a ++ rest) = boldScan 0 rest.
Proof. induction a as [|c a IH]; [reflexivity|exact IH]. Qed.

Lemma boldAt_other (c : N) (s : jsstring) :
  N.eqb c 42 = false -> boldAt (c :: s) = None.
Proof.
  intros H. unfold boldAt.
  change (stripPrefix (lit "**") (c :: s))
    with (if N.eqb 42 c then stripPrefix [42%N] s else None).
  now rewrite N.eqb_sym, H.
Qed.

Lemma boldScan_here (c : N) (s : jsstring) :
  boldScan 0 (c :: s)
  = match boldAt (c :: s) with
    | Some (capture, len) => capture :: boldScan (len - 1) s
    | None => boldScan 0 s
    end.
Proof. reflexivity. Qed.

Lemma boldScan_plain (pre rest : jsstring) :
  starFree pre = true -> boldScan 0 (pre ++ rest) = boldScan 0 rest.
Proof.
  induction pre as [|c pre IH]; intros H; [reflexivity|].
  simpl in H. apply andb_true_iff in H as [Hc Hpre].
  apply negb_true_iff in Hc.
  change ((c :: pre) ++ rest) with (c :: (pre ++ rest)).
  rewrite boldScan_here, boldAt_other by exact Hc. now apply IH.
Qed.

Lemma spanNonStar_run (t rest : jsstring) :
  starFree t = true ->
  spanNonStar (t ++ 42%N :: rest) = (t, 42%N :: rest).
Proof.
  induction t as [|c t IH]; intros H; [reflexivity|].
  simpl in H. apply andb_true_iff in H as [Hc Ht].
  apply negb_true_iff in Hc.
  change ((c :: t) ++ 42%N :: rest) with (c :: (t ++ 42%N :: rest)).
  cbn [spanNonStar]. now rewrite Hc, IH.
Qed.

Lemma boldAt_span (t rest : jsstring) :
  t <> [] -> starFree t = true ->
  boldAt (42%N :: 42%N :: (t ++ 42%N :: 42%N :: rest))
  = Some (t, 4 + List.length t).
Proof.
  intros Hne Ht. unfold boldAt.
  change (stripPrefix (lit "**") (42%N :: 42%N :: (t ++ 42%N :: 42%N :: rest)))
    with (Some (t ++ 42%N :: 42%N :: rest)).
  cbv beta iota. rewrite spanNonStar_run by exact Ht.
  destruct t as [|c t]; [congruence|].
  change (stripPrefix (lit "**") (42%N :: 42%N :: rest)) with (Some rest).
  reflexivity.
Qed.

Lemma boldScan_span (t rest : jsstring) :
  t <> [] -> starFree t = true ->
  boldScan 0 (lit "**" ++ t ++ lit "**" ++ rest) = t :: boldScan 0 rest.
Proof.
  intros Hne Ht.
  change (lit "**" ++ t ++ lit "**" ++ rest)
    with (42%N :: 42%N :: (t ++ 42%N :: 42%N :: rest)).
  rewrite boldScan_here, boldAt_span by assumption.
  f_equal.
  replace (4 + List.length t - 1)
    with (List.length (42%N :: t ++ [42%N; 42%N]))
    by (simpl; rewrite length_app; simpl; lia).
  replace (42%N :: t ++ 42%N :: 42%N :: rest)
    with ((42%N :: t ++ [42%N; 42%N]) ++ rest)
    by (simpl; now rewrite <- app_assoc).
  apply boldScan_skip.
Qed.

Lemma boldMatches_plain (s : jsstring) :
  starFree s = true -> boldMatches s = [].
Proof.
  intros H. unfold boldMatches.
  rewrite <- (app_nil_r s). now rewrite boldScan_plain.
Qed.

Lemma boldMatches_markdownOf (spans : list (jsstring * jsstring))
  (tail : jsstring) :
  Forall (fun span => starFree (fst span) = true
                      /\ starFree (snd span) = true /\ snd span <> []) spans ->
  starFree tail = true ->
  boldMatches (markdownOf spans tail) = map snd spans.
Proof.
  intros Hspans Htail. unfold boldMatches.
  induction Hspans as [|[pre t] spans (Hpre & Ht & Hne) _ IH].
  - now apply boldMatches_plain.
  - change (markdownOf ((pre, t) :: spans) tail)
      with (pre ++ lit "**" ++ t ++ lit "**" ++ markdownOf spans tail).
    cbn [fst snd map] in *.
    rewrite boldScan_plain by assumption.
    rewrite boldScan_span by assumption. now rewrite IH.
Qed.

(** X16. While its message is streaming, the last thought panel is
    titled after the last span in bold of the trimmed thought, or
    ["Analyzing..."] when the thought has no bold span; spans and plain
    text may alternate freely.  Any other thought panel is titled
    ["Thought Process"]. *)
Theorem X16_thought_title (part : Part) (index : nat)
  (spans : list (jsstring * jsstring)) (tail : jsstring) :
  thoughtContent part = markdownOf spans tail ->
  Forall (fun span => starFree (fst span) = true
                      /\ starFree (snd span) = true /\ snd span <> []) spans ->
  starFree tail = true ->
  thoughtTitle true index (S index) part
  = match lastOf (map snd spans) with
    | Some t => lit "Thinking: " ++ t
    | None => lit "Analyzing..."
    end
  /\ (forall nparts, thoughtTitle false index nparts part
                     = lit "Thought Process")
  /\ (forall nparts, nparts <> S index ->
        thoughtTitle true index nparts part = lit "Thought Process").
Proof.
  intros Hcontent Hspans Htail. split; [|split].
  - unfold thoughtTitle. rewrite Nat.eqb_refl. cbn [andb].
    now rewrite Hcontent, boldMatches_markdownOf.
  - reflexivity.
  - intros nparts Hne. unfold thoughtTitle.
    apply Nat.eqb_neq in Hne. rewrite Nat.eqb_sym in Hne.
    now rewrite Hne.
Qed.

Lemma X16_thought_title_witness :
  thoughtTitle true 0 1
    (flaggedThoughtPart
       (lit " **Plan**: crop the image, then **Plot** the result "))
  = lit "Thinking: Plot".
Proof.
  apply (@X16_thought_title
           (flaggedThoughtPart
              (lit " **Plan**: crop the image, then **Plot** the result "))
           0
           [([], lit "Plan"); (lit ": crop the image, then ", lit "Plot")]
           (lit " the result")).
  - reflexivity.
  - repeat constructor; discriminate.
  - reflexivity.
Defined.

Lemma spanNonStar_starFree (s : jsstring) :
  starFree (fst (spanNonStar s)) = true.
Proof.
  induction s as [|c s IH]; [reflexivity|].
  cbn [spanNonStar]. destruct (N.eqb c 42) eqn:Hc; [reflexivity|].
  destruct (spanNonStar s) as [run rest]. simpl in *. now rewrite Hc.
Qed.

Lemma boldAt_capture (s capture : jsstring) (len : nat) :
  boldAt s = Some (capture, len) ->
  capture <> [] /\ starFree capture = true.
Proof.
  unfold boldAt. destruct (stripPrefix (lit "**") s) as [afterOpen|];
    [|discriminate].
  pose proof (spanNonStar_starFree afterOpen) as Hfree.
  destruct (spanNonStar afterOpen) as [[|c run] rest]; [discriminate|].
  destruct (stripPrefix (lit "**") rest); [|discriminate].
  intros H. injection H as <- _. split; [discriminate|exact Hfree].
Qed.

Lemma boldScan_captures (s : jsstring) :
  forall skip,
    Forall (fun t => t <> [] /\ starFree t = true) (boldScan skip s).
Proof.
  induction s as [|c s IH]; intros skip; [constructor|].
  cbn [boldScan]. destruct skip as [|k]; [|apply IH].
  destruct (boldAt (c :: s)) as [[capture len]|] eqn:E; [|apply IH].
  constructor; [exact (@boldAt_capture _ _ _ E)|apply IH].
Qed.

(** X17. Whatever the thought holds, well-formed markdown or not, the
    title of its panel is ["Thought Process"], ["Analyzing..."], or
    ["Thinking: "] followed by a label that is not empty and has no
    star in it. *)
Theorem X17_title_well_formed (isStreaming : bool) (index nparts : nat)
  (part : Part) :
  thoughtTitle isStreaming index nparts part = lit "Thought Process"
  \/ thoughtTitle isStreaming index nparts part = lit "Analyzing..."
  \/ exists label,
       thoughtTitle isStreaming index nparts part = lit "Thinking: " ++ label
       /\ label <> [] /\ starFree label = true.
Proof.
  unfold thoughtTitle.
  destruct (isStreaming && Nat.eqb (S index) nparts); [|now left].
  right.
  pose proof (boldScan_captures (thoughtContent part) 0) as Hall.
  fold (boldMatches (thoughtContent part)) in Hall.
  destruct (lastOf (boldMatches (thoughtContent part))) as [t|] eqn:E;
    [|now left].
  right. exists t. split; [reflexivity|].
  destruct (lastOf_Some_snoc _ E) as [front Hfront].
  rewrite Hfront in Hall. apply Forall_app in Hall as [_ Hall].
  now inversion Hall.
Qed.

(* ================================================================== *)
(** * Further properties of the input form and of the example cards *)
(* ================================================================== *)








Lemma afterLastDot_ext (pre ext : jsstring) :
  dotFree ext = true -> afterLastDot (pre ++ 46%N :: ext) = Some ext.
Proof.
  intros Hext.
  assert (Hnone : afterLastDot ext = None).
  { induction ext as [|c ext IH]; [reflexivity|].
    simpl in Hext. apply andb_true_iff in Hext as [Hc Hext].
    apply negb_true_iff in Hc. cbn [afterLastDot].
    now rewrite (IH Hext), Hc. }
  induction pre as [|c pre IH].
  - cbn [app afterLastDot]. now rewrite Hnone.
  - change ((c :: pre) ++ 46%N :: ext) with (c :: (pre ++ 46%N :: ext)).
    cbn [afterLastDot]. now rewrite IH.
Qed.

(** X19. The blob that an example card shows never has an empty or
    generic type: a specific type that the server reports is kept, and
    otherwise the type is read off the extension of the URL, the part
    behind its last dot, and is one of [image/jpeg], [image/png] and
    [image/webp], [image/jpeg] when the extension is unknown. *)
Theorem X19_thumbnail_mime_type (toLowerCase : jsstring -> jsstring)
  (blobType url : jsstring) :
  let result := thumbnailMimeType toLowerCase blobType url in
  result <> []
  /\ result <> lit "application/octet-stream"
  /\ (blobType <> [] -> blobType <> lit "application/octet-stream" ->
      result = blobType)
  /\ (blobType = [] \/ blobType = lit "application/octet-stream" ->
      (result = lit "image/jpeg" \/ result = lit "image/png"
       \/ result = lit "image/webp")
      /\ forall pre ext,
           url = pre ++ 46%N :: ext -> dotFree ext = true ->
           (toLowerCase ext = lit "png" -> result = lit "image/png")
           /\ (toLowerCase ext = lit "webp" -> result = lit "image/webp")
           /\ (toLowerCase ext <> lit "png" ->
               toLowerCase ext <> lit "webp" -> result = lit "image/jpeg")).
Proof.
  intros result.
  assert (Hfallback :
    blobType = [] \/ blobType = lit "application/octet-stream" ->
    result
    = let ext := toLowerCase (lastSegment url) in
      if strictEq ext (lit "jpg") || strictEq ext (lit "jpeg")
      then lit "image/jpeg"
      else if strictEq ext (lit "png") then lit "image/png"
      else if strictEq ext (lit "webp") then lit "image/webp"
      else lit "image/jpeg").
  { intros [-> | ->]; reflexivity. }
  assert (Hkept :
    blobType <> [] -> blobType <> lit "application/octet-stream" ->
    result = blobType).
  { intros Hne Hgen. unfold result, thumbnailMimeType.
    apply strictEq_false in Hgen. rewrite Hgen.
    destruct blobType; [congruence|reflexivity]. }
  assert (Hthree :
    blobType = [] \/ blobType = lit "application/octet-stream" ->
    result = lit "image/jpeg" \/ result = lit "image/png"
    \/ result = lit "image/webp").
  { intros H. rewrite (Hfallback H). cbv zeta.
    destruct (strictEq _ (lit "jpg") || strictEq _ (lit "jpeg")); [now left|].
    destruct (strictEq _ (lit "png")); [now right; left|].
    destruct (strictEq _ (lit "webp")); [now right; right|now left]. }
  assert (Hgeneric :
    {blobType = [] \/ blobType = lit "application/octet-stream"}
    + {blobType <> [] /\ blobType <> lit "application/octet-stream"}).
  { destruct blobType as [|c b]; [left; now left|].
    destruct (jsstring_eq_dec (c :: b) (lit "application/octet-stream"));
      [left; now right|right; split; [discriminate|assumption]]. }
  split; [|split; [|split; [exact Hkept|split; [exact (Hthree H)|]]]].
  - destruct Hgeneric as [H|[H1 H2]].
    + destruct (Hthree H) as [-> | [-> | ->]]; discriminate.
    + now rewrite (Hkept H1 H2).
  - destruct Hgeneric as [H|[H1 H2]].
    + destruct (Hthree H) as [-> | [-> | ->]]; discriminate.
    + now rewrite (Hkept H1 H2).
  - intros pre ext -> Hext. rewrite (Hfallback H). cbv zeta.
    unfold lastSegment. rewrite afterLastDot_ext by exact Hext.
    repeat split.
    + intros ->. reflexivity.
    + intros ->. reflexivity.
    + intros Hpng Hwebp.
      apply strictEq_false in Hpng, Hwebp. rewrite Hpng, Hwebp.
      now destruct (strictEq _ (lit "jpg") || strictEq _ (lit "jpeg")).
Qed.

Lemma X19_thumbnail_mime_type_witness :
  map (fun example => thumbnailMimeType asciiLower [] (image example))
    DEFAULT_EXAMPLES
  = [lit "image/jpeg"; lit "image/jpeg"; lit "image/jpeg"]
  /\ thumbnailMimeType asciiLower (lit "application/octet-stream")
       (lit "https://example.org/a.b/Chart.PNG")
     = lit "image/png".
Proof.
  split; [reflexivity|].
  apply (proj1
           (proj2 (proj2 (proj2 (proj2
              (X19_thumbnail_mime_type asciiLower
                 (lit "application/octet-stream")
                 (lit "https://example.org/a.b/Chart.PNG"))))
              (or_intror eq_refl))
              (lit "https://example.org/a.b/Chart") (lit "PNG")
              eq_refl eq_refl)).
  reflexivity.
Defined.
